(** * Rock-Paper-Scissors-Plus: the rules engine and its tool layer

    A shallow embedding of [game_logic.py], of the functions of
    [game_tools.py] and of the name [game_state] that [main.py] imports, with
    the properties the specification states about them and further
    properties read off the code.

    Conventions of the embedding.
    - A Python [int] is a [Z]; a [bool] is a [bool].
    - A Python [str] is a [string] whose characters are the code points below
      256 (the Latin-1 block).  On that block [str.lower] is a character map
      and [str.strip] removes the white space listed in [isspace].
    - [game_tools.game_state] is a module-level global that the tool functions
      read and rebind, and [random] is a module-level source of draws.  Both
      live in a [World] that is threaded through a state-and-exception monad.
      The in-place updates of [game_logic.py] return the object they were
      given, so a functional update followed by the rebinding of the global is
      the same thing.
    - An uncaught Python exception is the [Raise] result. *)

From Stdlib Require Import ZArith QArith Bool List String Ascii Lia.
Import ListNotations.

Local Open Scope string_scope.
Local Open Scope Z_scope.

(** ** Python strings on the Latin-1 block *)

Module PyStr.

Definition between (lo hi n : N) : bool := (N.leb lo n && N.leb n hi)%bool.

(** [c.isspace()] for a code point below 256: TAB..CR, FS..US, SPACE,
    NEL (133) and NBSP (160). *)
Definition isspace (c : ascii) : bool :=
  let n := N_of_ascii c in
  (between 9 13 n || between 28 32 n || N.eqb n 133 || N.eqb n 160)%bool.

(** An upper-case letter below 256: A..Z, and 192..222 without the
    multiplication sign 215.  Its lower-case form is 32 further. *)
Definition isupper (c : ascii) : bool :=
  let n := N_of_ascii c in
  (between 65 90 n || (between 192 222 n && negb (N.eqb n 215)))%bool.

Definition lower_char (c : ascii) : ascii :=
  if isupper c then ascii_of_N (N_of_ascii c + 32) else c.

(** [s.lower()] *)
Fixpoint lower (s : string) : string :=
  match s with
  | EmptyString => EmptyString
  | String c t => String (lower_char c) (lower t)
  end.

(** [s.lstrip()] *)
Fixpoint lstrip (s : string) : string :=
  match s with
  | EmptyString => EmptyString
  | String c t => if isspace c then lstrip t else s
  end.

(** [s.rstrip()] *)
Fixpoint rstrip (s : string) : string :=
  match s with
  | EmptyString => EmptyString
  | String c t =>
      match rstrip t with
      | EmptyString => if isspace c then EmptyString else String c EmptyString
      | t' => String c t'
      end
  end.

(** [s.strip()] *)
Definition strip (s : string) : string := rstrip (lstrip s).

(** [x in l] for a list of strings. *)
Definition mem (x : string) (l : list string) : bool :=
  existsb (String.eqb x) l.

(** A dict literal with string keys, and the subscript [d[k]]. *)
Definition dict := list (string * string).

Fixpoint dict_get (d : dict) (k : string) : option string :=
  match d with
  | [] => None
  | (k', v) :: d' => if String.eqb k' k then Some v else dict_get d' k
  end.

(** Exceptions the modelled code can raise, and the result of a call. *)
Inductive exn := KeyError (key : string) | IndexError.

Inductive res (A : Type) :=
| Ok (a : A)
| Raise (e : exn).
Arguments Ok {A} a.
Arguments Raise {A} e.

End PyStr.

(** ** game_logic.py *)

Module game_logic.

Import PyStr.

(** [Move = Literal["rock", "paper", "scissors", "bomb"]] *)
Inductive Move := rock | paper | scissors | bomb.

(** [Outcome = Literal["user", "bot", "draw"]] *)
Inductive Outcome := user | bot | draw.

(** The string each literal stands for at run time. *)
Definition move_str (m : Move) : string :=
  match m with
  | rock => "rock" | paper => "paper" | scissors => "scissors" | bomb => "bomb"
  end.

Definition outcome_str (o : Outcome) : string :=
  match o with user => "user" | bot => "bot" | draw => "draw" end.

(** The list literal of [is_valid_move]. *)
Definition MOVE_NAMES : list string := ["rock"; "paper"; "scissors"; "bomb"].

Record GameState := mkGameState {
  round_number : Z;
  user_score : Z;
  bot_score : Z;
  user_bomb_used : bool;
  bot_bomb_used : bool;
  game_over : bool
}.

(** [GameState()] *)
Definition GameState_new : GameState := mkGameState 0 0 0 false false false.

Definition set_round_number (s : GameState) (v : Z) : GameState :=
  mkGameState v (user_score s) (bot_score s)
              (user_bomb_used s) (bot_bomb_used s) (game_over s).
Definition set_user_score (s : GameState) (v : Z) : GameState :=
  mkGameState (round_number s) v (bot_score s)
              (user_bomb_used s) (bot_bomb_used s) (game_over s).
Definition set_bot_score (s : GameState) (v : Z) : GameState :=
  mkGameState (round_number s) (user_score s) v
              (user_bomb_used s) (bot_bomb_used s) (game_over s).
Definition set_user_bomb_used (s : GameState) (v : bool) : GameState :=
  mkGameState (round_number s) (user_score s) (bot_score s)
              v (bot_bomb_used s) (game_over s).
Definition set_bot_bomb_used (s : GameState) (v : bool) : GameState :=
  mkGameState (round_number s) (user_score s) (bot_score s)
              (user_bomb_used s) v (game_over s).
Definition set_game_over (s : GameState) (v : bool) : GameState :=
  mkGameState (round_number s) (user_score s) (bot_score s)
              (user_bomb_used s) (bot_bomb_used s) v.

Definition is_valid_move (move : string) : bool :=
  mem (lower move) MOVE_NAMES.

Definition normalize_move (move : string) : string := lower move.

Definition can_use_bomb (player : string) (state : GameState) : bool :=
  if String.eqb player "user" then negb (user_bomb_used state)
  else if String.eqb player "bot" then negb (bot_bomb_used state)
  else false.

(** The dict literal [wins] of [resolve_round]. *)
Definition wins : dict :=
  [("rock", "scissors"); ("scissors", "paper"); ("paper", "rock")].

Definition resolve_round (user_move bot_move : string) : res string :=
  if String.eqb user_move bot_move then Ok "draw"
  else if (String.eqb user_move "bomb" && String.eqb bot_move "bomb")%bool
       then Ok "draw"
  else if String.eqb user_move "bomb" then Ok "user"
  else if String.eqb bot_move "bomb" then Ok "bot"
  else match dict_get wins user_move with
       | None => Raise (KeyError user_move)
       | Some beaten =>
           if String.eqb beaten bot_move then Ok "user" else Ok "bot"
       end.

Definition update_score (state : GameState) (winner : string) : GameState :=
  if String.eqb winner "user"
  then set_user_score state (user_score state + 1)
  else if String.eqb winner "bot"
  then set_bot_score state (bot_score state + 1)
  else state.

Definition mark_bomb_used (state : GameState) (player move : string)
  : GameState :=
  if String.eqb move "bomb" then
    if String.eqb player "user" then set_user_bomb_used state true
    else if String.eqb player "bot" then set_bot_bomb_used state true
    else state
  else state.

Definition is_game_over (state : GameState) : bool :=
  Z.geb (round_number state) 3.

Definition get_final_result (state : GameState) : string :=
  if Z.gtb (user_score state) (bot_score state) then "User wins"
  else if Z.gtb (bot_score state) (user_score state) then "Bot wins"
  else "Draw".

End game_logic.

(** ** game_tools.py *)

Module game_tools.

Import PyStr game_logic.

(** The module-level state: the global [game_state], and the [random]
    module as an unbounded tape of raw draws with a read position. *)
Record World := mkWorld {
  game_state : GameState;
  rng : nat -> N;
  rng_pos : nat
}.

Definition M (A : Type) : Type := World -> res A * World.

Definition ret {A} (a : A) : M A := fun w => (Ok a, w).

Definition bind {A B} (m : M A) (k : A -> M B) : M B :=
  fun w =>
    match m w with
    | (Ok a, w') => k a w'
    | (Raise e, w') => (Raise e, w')
    end.

Notation "x <- m ;; k" := (bind m (fun x => k))
  (at level 61, m at next level, right associativity).
Notation "m ;;; k" := (bind m (fun _ => k))
  (at level 61, right associativity).

(** Reading and rebinding the global. *)
Definition read_global : M GameState := fun w => (Ok (game_state w), w).

Definition assign_global (s : GameState) : M unit :=
  fun w => (Ok tt, mkWorld s (rng w) (rng_pos w)).

(** A pure call that may raise. *)
Definition lift {A} (r : res A) : M A := fun w => (r, w).

Definition next_draw : M N :=
  fun w => (Ok (rng w (rng_pos w)),
            mkWorld (game_state w) (rng w) (S (rng_pos w))).

(** [random.random()]: a float k / 2^53 with 0 <= k < 2^53. *)
Definition random_random : M Q :=
  n <- next_draw ;;
  ret (Z.of_N (n mod 9007199254740992) # 9007199254740992).

(** [random.choice(seq)]: an element at an index below [len(seq)]. *)
Definition random_choice (seq : list string) : M string :=
  match seq with
  | [] => lift (Raise IndexError)
  | _ :: _ =>
      n <- next_draw ;;
      ret (nth (N.to_nat n mod List.length seq) seq "")
  end.

(** [a > b] on the values [random.random()] returns. *)
Definition Qgtb (a b : Q) : bool := negb (Qle_bool a b).

Definition get_bot_move : M string :=
  gs <- read_global ;;
  early <- (if (negb (bot_bomb_used gs) && (round_number gs =? 1))%bool
            then r <- random_random ;; ret (Qgtb r (1 # 2))
            else ret false) ;;
  if (early : bool) then ret "bomb"
  else
    let available_moves := ["rock"; "paper"; "scissors"] in
    gs <- read_global ;;
    more <- (if negb (bot_bomb_used gs)
             then r <- random_random ;; ret (Qgtb r (7 # 10))
             else ret false) ;;
    random_choice (if (more : bool)
                   then available_moves ++ ["bomb"]
                   else available_moves).

(** The dict [validate_move] returns. *)
Record ValidateResult := mkValidateResult {
  valid : bool;
  move : string;
  reason : string
}.

Definition validate_move (user_input : string) : M ValidateResult :=
  let user_input := lower (strip user_input) in
  if negb (is_valid_move user_input) then
    ret (mkValidateResult false user_input
           ("Invalid move '" ++ user_input
              ++ "'. Valid moves: rock, paper, scissors, bomb"))
  else
    let move := normalize_move user_input in
    gs <- read_global ;;
    if (String.eqb move "bomb" && negb (can_use_bomb "user" gs))%bool then
      ret (mkValidateResult false move "You have already used your bomb!")
    else
      ret (mkValidateResult true move "Valid move").

(** The dict [resolve_round_tool] returns. *)
Record RoundResult := mkRoundResult {
  r_user_move : string;
  r_bot_move : string;
  r_winner : string;
  r_user_score : Z;
  r_bot_score : Z;
  r_round : Z;
  r_game_over : bool;
  r_user_bomb_available : bool;
  r_bot_bomb_available : bool
}.

Definition resolve_round_tool (user_move : string) : M RoundResult :=
  bot_move <- get_bot_move ;;
  gs <- read_global ;;
  assign_global (mark_bomb_used gs "user" user_move) ;;;
  gs <- read_global ;;
  assign_global (mark_bomb_used gs "bot" bot_move) ;;;
  winner <- lift (resolve_round user_move bot_move) ;;
  gs <- read_global ;;
  assign_global (update_score gs winner) ;;;
  gs <- read_global ;;
  assign_global (set_round_number gs (round_number gs + 1)) ;;;
  gs <- read_global ;;
  (if is_game_over gs then assign_global (set_game_over gs true)
   else ret tt) ;;;
  gs <- read_global ;;
  ret (mkRoundResult user_move bot_move winner
         (user_score gs) (bot_score gs) (round_number gs) (game_over gs)
         (negb (user_bomb_used gs)) (negb (bot_bomb_used gs))).

(** The dict [update_game_state_tool] returns. *)
Record StateResult := mkStateResult {
  s_round : Z;
  s_user_score : Z;
  s_bot_score : Z;
  s_user_bomb_available : bool;
  s_bot_bomb_available : bool;
  s_game_over : bool
}.

Definition update_game_state_tool (action : string) : M StateResult :=
  (if String.eqb action "reset" then assign_global GameState_new
   else ret tt) ;;;
  gs <- read_global ;;
  ret (mkStateResult (round_number gs) (user_score gs) (bot_score gs)
         (negb (user_bomb_used gs)) (negb (bot_bomb_used gs))
         (game_over gs)).

Definition reset_game : M unit := assign_global GameState_new.

(** *** Sessions: sequences of tool calls on the module state *)

(** The calls that change the match: a round resolved with one of the four
    moves, and the two ways of resetting. *)
Inductive Call :=
| Resolve (user_move : Move)
| UpdateGameState (action : string)
| ResetGame.

(** The world a call leaves behind (whatever it returns or raises). *)
Definition after (c : Call) (w : World) : World :=
  match c with
  | Resolve m => snd (resolve_round_tool (move_str m) w)
  | UpdateGameState a => snd (update_game_state_tool a w)
  | ResetGame => snd (reset_game w)
  end.

Definition run (cs : list Call) (w : World) : World :=
  fold_left (fun w c => after c w) cs w.

(** The world when the module has just been imported. *)
Definition initial (tape : nat -> N) : World :=
  mkWorld GameState_new tape 0.

End game_tools.

(** * Definitions for the statements *)

Import PyStr game_logic game_tools.

(** The dominance relation in the words of the specification: equal moves
    draw; a lone bomb wins; otherwise rock beats scissors, scissors beats
    paper, paper beats rock, and the other side loses. *)
Definition beats (a b : Move) : bool :=
  match a, b with
  | rock, scissors | scissors, paper | paper, rock => true
  | _, _ => false
  end.

Definition Move_eqb (a b : Move) : bool :=
  match a, b with
  | rock, rock | paper, paper | scissors, scissors | bomb, bomb => true
  | _, _ => false
  end.

Definition dominance_spec (user_move bot_move : Move) : Outcome :=
  if Move_eqb user_move bot_move then draw
  else if Move_eqb user_move bomb then user
  else if Move_eqb bot_move bomb then bot
  else if beats user_move bot_move then user
  else bot.

(** Everything but the two scores is the same in [s] and [s']. *)
Definition same_round_and_flags (s s' : GameState) : Prop :=
  round_number s' = round_number s
  /\ user_bomb_used s' = user_bomb_used s
  /\ bot_bomb_used s' = bot_bomb_used s
  /\ game_over s' = game_over s.

(** The state a resolved round leaves, given the two moves and the winner:
    bombs marked, score updated, round incremented, [game_over] recomputed. *)
Definition resolved (s : GameState) (user_move bot_move winner : string)
  : GameState :=
  let s1 := mark_bomb_used s "user" user_move in
  let s2 := mark_bomb_used s1 "bot" bot_move in
  let s3 := update_score s2 winner in
  let s4 := set_round_number s3 (round_number s3 + 1) in
  if is_game_over s4 then set_game_over s4 true else s4.

(** The same world with another [game_over] flag. *)
Definition with_game_over (b : bool) (w : World) : World :=
  mkWorld (set_game_over (game_state w) b) (rng w) (rng_pos w).

(** The dict a resolved round returns, read off the state it leaves. *)
Definition round_result (user_move bot_move winner : string) (s : GameState)
  : RoundResult :=
  mkRoundResult user_move bot_move winner
    (user_score s) (bot_score s) (round_number s) (game_over s)
    (negb (user_bomb_used s)) (negb (bot_bomb_used s)).

(** What holds of the match state throughout a session. *)
Definition match_invariant (s : GameState) : Prop :=
  user_score s + bot_score s <= round_number s
  /\ (game_over s = true <-> round_number s >= 3).

(** The call [c], made in the world [w], clears no bomb flag that is set. *)
Definition keeps_bomb_flags (c : Call) (w : World) : Prop :=
  (user_bomb_used (game_state w) = true ->
   user_bomb_used (game_state (after c w)) = true)
  /\ (bot_bomb_used (game_state w) = true ->
      bot_bomb_used (game_state (after c w)) = true).

(** The three rounds of the specification's scenario: the draws make the bot
    play scissors, paper and bomb. *)
Definition scenario_tape (p : nat) : N :=
  nth p [0; 2; 0; 0; 1; 9007199254740991; 3]%N 0%N.

(** The index of a move in the list the bot chooses from. *)
Definition choice_index (m : Move) : N :=
  match m with rock => 0 | paper => 1 | scissors => 2 | bomb => 3 end%N.

(** A tape that, read from position [pos] in a state [gs] where the bot's
    bomb is unused, makes [get_bot_move] offer all four moves and pick [m]:
    in the second round the first draw declines the early bomb. *)
Definition tape_for (gs : GameState) (pos : nat) (m : Move) (p : nat) : N :=
  nth (p - pos)
    (if round_number gs =? 1
     then [0%N; 9007199254740991%N; choice_index m]
     else [9007199254740991%N; choice_index m])
    (choice_index m).

(** A caller that resolves the given user moves in order and stops at the
    first exception: the results returned, and the world left. *)
Fixpoint play (user_moves : list string) (w : World)
  : list RoundResult * World :=
  match user_moves with
  | [] => ([], w)
  | um :: rest =>
      match resolve_round_tool um w with
      | (Ok r, w') => let (rs, w'') := play rest w' in (r :: rs, w'')
      | (Raise _, w') => ([], w')
      end
  end.

(** How many of the results name [o] as the winner. *)
Definition count_winner (o : string) (rs : list RoundResult) : Z :=
  Z.of_nat (List.length (filter (fun r => String.eqb (r_winner r) o) rs)).

(** How many of the results have the bot playing 'bomb'. *)
Definition count_bot_bombs (rs : list RoundResult) : nat :=
  List.length (filter (fun r => String.eqb (r_bot_move r) "bomb") rs).

(** The snapshot [update_game_state_tool] makes of a state. *)
Definition snapshot (s : GameState) : StateResult :=
  mkStateResult (round_number s) (user_score s) (bot_score s)
    (negb (user_bomb_used s)) (negb (bot_bomb_used s)) (game_over s).

(** Bounds that hold of the world after [n] calls on the tape [tape]. *)
Definition session_bound (tape : nat -> N) (n : Z) (w : World) : Prop :=
  let s := game_state w in
  0 <= user_score s /\ 0 <= bot_score s
  /\ user_score s + bot_score s <= round_number s
  /\ 0 <= round_number s <= n
  /\ (user_bomb_used s = true -> 1 <= round_number s)
  /\ (bot_bomb_used s = true -> 1 <= round_number s)
  /\ rng w = tape.

(** ** main.py: the name [game_state] it imports

    [from game_tools import reset_game, game_state] binds, in [main], the
    object the global of [game_tools] names at import time.  The tool
    functions update the object their global names, in place;
    [game_state = GameState()] makes a new object and rebinds the global
    only.  So objects are cells of a heap here, and the two names are
    addresses. *)

Module main_py.

Record Process := mkProcess {
  heap : list GameState;
  tools_game_state : nat;
  main_game_state : nat;
  draws : nat -> N;
  draws_pos : nat
}.

(** The object at an address. *)
Definition deref (p : Process) (a : nat) : GameState :=
  nth a (heap p) GameState_new.

(** Updating the object at an address in place. *)
Fixpoint store (a : nat) (s : GameState) (h : list GameState)
  : list GameState :=
  match h, a with
  | [], _ => []
  | _ :: t, O => s :: t
  | x :: t, S a' => x :: store a' s t
  end.

(** A tool function run on the object the global of [game_tools] names:
    what it does to the state lands in that object. *)
Definition on_global {A : Type} (m : M A) (p : Process) : res A * Process :=
  let out := m (mkWorld (deref p (tools_game_state p))
                  (draws p) (draws_pos p)) in
  (fst out,
   mkProcess (store (tools_game_state p) (game_state (snd out)) (heap p))
     (tools_game_state p) (main_game_state p)
     (rng (snd out)) (rng_pos (snd out))).

(** [game_state = GameState()] in [game_tools]: a new object, and the global
    of [game_tools] rebound to it. *)
Definition rebind_fresh (p : Process) : Process :=
  mkProcess (heap p ++ [GameState_new]) (List.length (heap p))
    (main_game_state p) (draws p) (draws_pos p).

(** The functions of [game_tools] a caller can reach. *)
Inductive ToolCall :=
| CallValidate (user_input : string)
| CallResolve (user_move : string)
| CallUpdate (action : string)
| CallReset.

Definition tool_call (c : ToolCall) (p : Process) : Process :=
  match c with
  | CallValidate raw => snd (on_global (validate_move raw) p)
  | CallResolve um => snd (on_global (resolve_round_tool um) p)
  | CallUpdate action =>
      snd (on_global (update_game_state_tool action)
             (if String.eqb action "reset" then rebind_fresh p else p))
  | CallReset => rebind_fresh p
  end.

Definition tool_calls (cs : list ToolCall) (p : Process) : Process :=
  fold_left (fun p c => tool_call c p) cs p.

(** The process once [main] has imported [game_tools]: one object, named by
    both modules. *)
Definition at_import (tape : nat -> N) : Process :=
  mkProcess [GameState_new] 0 0 tape 0.

(** [main()] up to its game loop: the call of [reset_game()]. *)
Definition main_start (tape : nat -> N) : Process :=
  tool_call CallReset (at_import tape).

(** What [main] reads in [while not game_state.game_over]. *)
Definition main_sees_game_over (p : Process) : bool :=
  game_over (deref p (main_game_state p)).

(** What the tools read and report as [game_over]. *)
Definition tools_see_game_over (p : Process) : bool :=
  game_over (deref p (tools_game_state p)).

(** The world as the tool functions see it. *)
Definition world_of (p : Process) : World :=
  mkWorld (deref p (tools_game_state p)) (draws p) (draws_pos p).

(** [main]'s object lies below the one the tools use, both are allocated,
    and [main]'s is still the initial state. *)
Definition names_apart (p : Process) : Prop :=
  (main_game_state p < tools_game_state p)%nat
  /\ (tools_game_state p < List.length (heap p))%nat
  /\ deref p (main_game_state p) = GameState_new.

End main_py.

(** * Properties *)

(** ** Round resolution *)

(** The reference relation is the one the rules describe. *)
Lemma dominance_spec_rules (a b : Move) :
  dominance_spec a a = draw
  /\ (a <> bomb -> dominance_spec bomb a = user /\ dominance_spec a bomb = bot)
  /\ (beats a b = true ->
      dominance_spec a b = user /\ dominance_spec b a = bot).
Proof.
  destruct a, b; cbn; repeat split; congruence.
Qed.

Example resolve_rock_scissors : resolve_round "rock" "scissors" = Ok "user".
Proof. reflexivity. Qed.

Example resolve_paper_bomb : resolve_round "paper" "bomb" = Ok "bot".
Proof. reflexivity. Qed.

Example resolve_unknown_move_raises :
  resolve_round "lizard" "rock" = Raise (KeyError "lizard").
Proof. reflexivity. Qed.

(** C1. On every pair of canonical moves [resolve_round] returns, without
    raising, the outcome the reference dominance relation gives: a draw on
    equal moves (bomb against bomb included), a win for the side that alone
    plays bomb, and the rock/scissors/paper cycle otherwise. *)
Theorem resolve_round_refines_dominance :
  forall user_move bot_move : Move,
    resolve_round (move_str user_move) (move_str bot_move)
    = Ok (outcome_str (dominance_spec user_move bot_move)).
Proof.
  intros [] []; reflexivity.
Qed.

(** ** The pure operations on the match state *)

Example update_score_user_once :
  update_score (mkGameState 1 0 2 false true false) "user"
  = mkGameState 1 1 2 false true false.
Proof. reflexivity. Qed.

(** C6. In every state, [update_score] with outcome 'user' adds exactly 1 to
    [user_score] and keeps [bot_score]; with 'bot' it adds exactly 1 to
    [bot_score] and keeps [user_score]; with 'draw' it changes neither; and
    the round number, both bomb flags and [game_over] are kept in all three
    cases. *)
Theorem update_score_effect :
  forall s : GameState,
    (user_score (update_score s "user") = user_score s + 1
     /\ bot_score (update_score s "user") = bot_score s
     /\ same_round_and_flags s (update_score s "user"))
    /\ (bot_score (update_score s "bot") = bot_score s + 1
        /\ user_score (update_score s "bot") = user_score s
        /\ same_round_and_flags s (update_score s "bot"))
    /\ (user_score (update_score s "draw") = user_score s
        /\ bot_score (update_score s "draw") = bot_score s
        /\ same_round_and_flags s (update_score s "draw")).
Proof.
  intros s; unfold same_round_and_flags; cbn; repeat split; reflexivity.
Qed.

Example mark_bomb_used_other_player :
  mark_bomb_used GameState_new "referee" "bomb" = GameState_new.
Proof. reflexivity. Qed.

(** C7. [mark_bomb_used] with move 'bomb' sets the flag of the named player
    ('user' or 'bot') to true and changes nothing else; doing it twice for
    the same player gives the state that doing it once gives; with a move
    other than 'bomb' it returns the state unchanged, whoever the player. *)
Theorem mark_bomb_used_idempotent :
  forall s : GameState,
    mark_bomb_used s "user" "bomb" = set_user_bomb_used s true
    /\ mark_bomb_used s "bot" "bomb" = set_bot_bomb_used s true
    /\ user_bomb_used (mark_bomb_used s "user" "bomb") = true
    /\ bot_bomb_used (mark_bomb_used s "bot" "bomb") = true
    /\ (forall player : string,
          mark_bomb_used (mark_bomb_used s player "bomb") player "bomb"
          = mark_bomb_used s player "bomb")
    /\ (forall player move : string,
          move <> "bomb" -> mark_bomb_used s player move = s).
Proof.
  intros s; repeat split; try reflexivity.
  - intros player; unfold mark_bomb_used; cbn.
    destruct (String.eqb player "user"); [reflexivity|].
    destruct (String.eqb player "bot"); reflexivity.
  - intros player move Hmove; unfold mark_bomb_used.
    apply String.eqb_neq in Hmove; rewrite Hmove; reflexivity.
Qed.

Lemma mark_bomb_used_idempotent_witness :
  "rock" <> "bomb"
  /\ mark_bomb_used (mkGameState 1 1 0 false false false) "user" "rock"
     = mkGameState 1 1 0 false false false.
Proof.
  assert (H : "rock" <> "bomb") by discriminate.
  split; [exact H|].
  exact (proj2 (proj2 (proj2 (proj2 (proj2
           (mark_bomb_used_idempotent (mkGameState 1 1 0 false false false))))))
           "user" "rock" H).
Defined.

(** C8. In every state, whatever the round number and [game_over],
    [get_final_result] is 'User wins' when the user's score is the higher,
    'Bot wins' when the bot's is, and 'Draw' when they are equal; so before
    the end of the match it names the provisional leader. *)
Theorem get_final_result_compares_scores :
  forall s : GameState,
    (user_score s > bot_score s -> get_final_result s = "User wins")
    /\ (bot_score s > user_score s -> get_final_result s = "Bot wins")
    /\ (user_score s = bot_score s -> get_final_result s = "Draw").
Proof.
  intros s; unfold get_final_result.
  destruct (Z.gtb_spec (user_score s) (bot_score s)),
           (Z.gtb_spec (bot_score s) (user_score s));
    repeat split; intros; solve [reflexivity | lia].
Qed.

Lemma get_final_result_compares_scores_witness :
  (1 > 0 /\ get_final_result (mkGameState 1 1 0 false false false)
            = "User wins")
  /\ (2 > 1 /\ get_final_result (mkGameState 3 1 2 false true true)
               = "Bot wins")
  /\ (0 = 0 /\ get_final_result (mkGameState 0 0 0 false false false)
               = "Draw").
Proof.
  split; [|split]; (split; [lia|]).
  - apply (proj1 (get_final_result_compares_scores
                    (mkGameState 1 1 0 false false false))); cbn; lia.
  - apply (proj1 (proj2 (get_final_result_compares_scores
                           (mkGameState 3 1 2 false true true)))); cbn; lia.
  - apply (proj2 (proj2 (get_final_result_compares_scores
                           (mkGameState 0 0 0 false false false)))); reflexivity.
Defined.

(** C9. In every state [can_use_bomb] for 'user' is true iff
    [user_bomb_used] is false, for 'bot' it is true iff [bot_bomb_used] is
    false, and for every other player identifier it returns false (a value,
    not an exception). *)
Theorem can_use_bomb_by_player :
  forall s : GameState,
    (can_use_bomb "user" s = true <-> user_bomb_used s = false)
    /\ (can_use_bomb "bot" s = true <-> bot_bomb_used s = false)
    /\ (forall player : string,
          player <> "user" -> player <> "bot" -> can_use_bomb player s = false).
Proof.
  intros s; unfold can_use_bomb; cbn; repeat split;
    try (destruct (user_bomb_used s); cbn; congruence);
    try (destruct (bot_bomb_used s); cbn; congruence).
  intros player Hu Hb.
  apply String.eqb_neq in Hu, Hb; rewrite Hu, Hb; reflexivity.
Qed.

Lemma can_use_bomb_by_player_witness :
  "referee" <> "user" /\ "referee" <> "bot"
  /\ can_use_bomb "referee" (mkGameState 2 1 1 true false false) = false.
Proof.
  assert (Hu : "referee" <> "user") by discriminate.
  assert (Hb : "referee" <> "bot") by discriminate.
  split; [exact Hu|split; [exact Hb|]].
  exact (proj2 (proj2 (can_use_bomb_by_player
                         (mkGameState 2 1 1 true false false)))
           "referee" Hu Hb).
Defined.

(** ** Strings: lowering and trimming *)

Example strip_keeps_inner_space : strip "  rock  paper " = "rock  paper".
Proof. reflexivity. Qed.

Example lower_mixed : lower " RoCk!" = " rock!".
Proof. reflexivity. Qed.

Lemma mem_In (x : string) (l : list string) : mem x l = true <-> In x l.
Proof.
  unfold mem; rewrite existsb_exists; split.
  - intros [y [Hy Heq]]; apply String.eqb_eq in Heq; subst; exact Hy.
  - intros H; exists x; split; [exact H | apply String.eqb_refl].
Qed.

Lemma lower_char_idem (c : ascii) : lower_char (lower_char c) = lower_char c.
Proof. destruct c as [[] [] [] [] [] [] [] []]; reflexivity. Qed.

Lemma isspace_lower_char (c : ascii) : isspace (lower_char c) = isspace c.
Proof. destruct c as [[] [] [] [] [] [] [] []]; reflexivity. Qed.

Lemma lower_idem (s : string) : lower (lower s) = lower s.
Proof.
  induction s as [|c t IH]; cbn; [reflexivity|].
  now rewrite lower_char_idem, IH.
Qed.

Lemma lower_length (s : string) : String.length (lower s) = String.length s.
Proof. induction s as [|c t IH]; cbn; congruence. Qed.

Lemma lower_lstrip (s : string) : lower (lstrip s) = lstrip (lower s).
Proof.
  induction s as [|c t IH]; cbn; [reflexivity|].
  rewrite isspace_lower_char; destruct (isspace c); [exact IH | reflexivity].
Qed.

Lemma lower_rstrip (s : string) : lower (rstrip s) = rstrip (lower s).
Proof.
  induction s as [|c t IH]; cbn; [reflexivity|].
  rewrite <- IH, isspace_lower_char.
  destruct (rstrip t); cbn; [destruct (isspace c)|]; reflexivity.
Qed.

(** Lowering and trimming commute. *)
Lemma lower_strip (s : string) : lower (strip s) = strip (lower s).
Proof. unfold strip; now rewrite lower_rstrip, lower_lstrip. Qed.

Lemma lstrip_length (s : string) :
  (String.length (lstrip s) <= String.length s)%nat.
Proof.
  induction s as [|c t IH]; cbn; [lia|].
  destruct (isspace c); cbn; lia.
Qed.

Lemma rstrip_length (s : string) :
  (String.length (rstrip s) <= String.length s)%nat.
Proof.
  induction s as [|c t IH]; cbn; [lia|].
  destruct (rstrip t); [destruct (isspace c)|]; cbn in *; lia.
Qed.

Lemma lstrip_same_length (s : string) :
  String.length (lstrip s) = String.length s -> lstrip s = s.
Proof.
  destruct s as [|c t]; cbn; [reflexivity|].
  destruct (isspace c); [|reflexivity].
  intros H; pose proof (lstrip_length t); lia.
Qed.

Lemma rstrip_same_length (s : string) :
  String.length (rstrip s) = String.length s -> rstrip s = s.
Proof.
  induction s as [|c t IH]; cbn; [reflexivity|].
  pose proof (rstrip_length t) as Hle.
  destruct (rstrip t) as [|c' t'] eqn:E.
  - destruct (isspace c); cbn in *; intros H; [lia|].
    rewrite <- IH; [reflexivity | cbn; lia].
  - cbn in *; intros H; rewrite IH; [reflexivity | lia].
Qed.

(** A string that trimming does not shorten has no white space around it. *)
Lemma strip_same_length (s : string) :
  String.length (strip s) = String.length s -> strip s = s.
Proof.
  unfold strip; intros H.
  pose proof (rstrip_length (lstrip s)); pose proof (lstrip_length s).
  assert (Hl : lstrip s = s) by (apply lstrip_same_length; lia).
  rewrite Hl in *; now apply rstrip_same_length.
Qed.

Lemma move_names_trimmed (x : string) : In x MOVE_NAMES -> strip x = x.
Proof.
  cbn; intros [<-|[<-|[<-|[<-|[]]]]]; reflexivity.
Qed.

(** A string whose lowered form is a move name has no white space around it. *)
Lemma lowered_name_trimmed (raw : string) :
  In (lower raw) MOVE_NAMES -> strip raw = raw.
Proof.
  intros H; apply strip_same_length.
  rewrite <- (lower_length (strip raw)), lower_strip,
    (move_names_trimmed _ H).
  apply lower_length.
Qed.

(** ** Move validation *)

Example is_valid_move_upper : is_valid_move "BoMb" = true.
Proof. reflexivity. Qed.

Example is_valid_move_lizard : is_valid_move "lizard" = false.
Proof. reflexivity. Qed.

(** C5, as stated, fails: '  rock ' trims and lowers to the move name 'rock',
    yet [is_valid_move] returns false on it, since it does not trim. *)
Lemma is_valid_move_padded_rock :
  In (lower (strip "  rock ")) MOVE_NAMES /\ is_valid_move "  rock " = false.
Proof. split; [left; reflexivity | reflexivity]. Qed.

(** C5, amended. For every input string, [is_valid_move] is true iff the
    lowered input, taken as it is and not trimmed, is one of 'rock', 'paper',
    'scissors', 'bomb'; equivalently, iff the input has no white space around
    it and its trimmed, lowered form is one of the four names. *)
Theorem is_valid_move_lowered_untrimmed :
  forall raw : string,
    (is_valid_move raw = true <-> In (lower raw) MOVE_NAMES)
    /\ (is_valid_move raw = true
        <-> strip raw = raw /\ In (lower (strip raw)) MOVE_NAMES).
Proof.
  intros raw; unfold is_valid_move; rewrite mem_In; split; [reflexivity|].
  split.
  - intros H; pose proof (lowered_name_trimmed raw H) as Hs.
    rewrite Hs; split; [reflexivity | exact H].
  - intros [Hs H]; rewrite Hs in H; exact H.
Qed.

Lemma is_valid_move_lowered_untrimmed_witness :
  In (lower "Rock") MOVE_NAMES /\ is_valid_move "Rock" = true.
Proof.
  assert (H : In (lower "Rock") MOVE_NAMES) by (left; reflexivity).
  split; [exact H|].
  exact (proj2 (proj1 (is_valid_move_lowered_untrimmed "Rock")) H).
Defined.

Example validate_lizard :
  fst (validate_move "lizard" (initial (fun _ => 0%N)))
  = Ok (mkValidateResult false "lizard"
          "Invalid move 'lizard'. Valid moves: rock, paper, scissors, bomb").
Proof. reflexivity. Qed.

Example validate_spent_bomb :
  fst (validate_move " Bomb" (mkWorld (mkGameState 1 1 0 true false false)
                                (fun _ => 0%N) 3))
  = Ok (mkValidateResult false "bomb" "You have already used your bomb!").
Proof. reflexivity. Qed.

(** What [validate_move] computes, by cases on the trimmed, lowered input. *)
Lemma validate_move_cases (raw : string) (w : World) :
  let u := lower (strip raw) in
  validate_move raw w =
  (Ok (if negb (mem u MOVE_NAMES) then
         mkValidateResult false u
           ("Invalid move '" ++ u
              ++ "'. Valid moves: rock, paper, scissors, bomb")
       else if (String.eqb u "bomb" && user_bomb_used (game_state w))%bool then
         mkValidateResult false u "You have already used your bomb!"
       else mkValidateResult true u "Valid move"),
   w).
Proof.
  cbn zeta; unfold validate_move, is_valid_move, normalize_move.
  rewrite !lower_idem.
  destruct (mem (lower (strip raw)) MOVE_NAMES); cbn; [|reflexivity].
  unfold bind, read_global, ret, can_use_bomb; cbn.
  rewrite negb_involutive.
  destruct (String.eqb (lower (strip raw)) "bomb"),
           (user_bomb_used (game_state w)); reflexivity.
Qed.

(** C4. On every input string [validate_move] returns a result (it does not
    raise).  With [u] the trimmed, lowered input: if [u] is one of the four
    move names and is not 'bomb', or the user's bomb flag is false, the
    result is valid with move [u]; if [u] is not a move name the result is
    invalid and its reason lists the valid moves; if [u] is 'bomb' and the
    user's bomb flag is true the result is invalid and its reason says the
    bomb was already used.  '  ROCK ' is accepted as move 'rock'. *)
Theorem validate_move_structured :
  forall (raw : string) (w : World),
    let u := lower (strip raw) in
    exists r : ValidateResult,
      fst (validate_move raw w) = Ok r
      /\ (In u MOVE_NAMES ->
          u <> "bomb" \/ user_bomb_used (game_state w) = false ->
          r = mkValidateResult true u "Valid move")
      /\ (~ In u MOVE_NAMES ->
          r = mkValidateResult false u
                ("Invalid move '" ++ u
                   ++ "'. Valid moves: rock, paper, scissors, bomb"))
      /\ (u = "bomb" -> user_bomb_used (game_state w) = true ->
          r = mkValidateResult false u "You have already used your bomb!")
      /\ (raw = "  ROCK " -> r = mkValidateResult true "rock" "Valid move").
Proof.
  intros raw w u; subst u.
  rewrite validate_move_cases; cbn [fst].
  eexists; split; [reflexivity|].
  set (u := lower (strip raw)).
  destruct (mem u MOVE_NAMES) eqn:Hmem; cbn [negb].
  - apply mem_In in Hmem.
    repeat apply conj.
    + intros _ [Hne | Hflag].
      * apply String.eqb_neq in Hne; rewrite Hne; reflexivity.
      * rewrite Hflag, andb_false_r; reflexivity.
    + intros Hnot; contradiction.
    + intros Hb Hflag; rewrite Hflag.
      apply String.eqb_eq in Hb; rewrite Hb; reflexivity.
    + intros ->; reflexivity.
  - assert (Hnot : ~ In u MOVE_NAMES).
    { intros Hin; apply mem_In in Hin; congruence. }
    repeat apply conj.
    + intros Hin; contradiction.
    + intros _; reflexivity.
    + intros Hb; exfalso; apply Hnot; rewrite Hb; cbn; tauto.
    + intros ->; discriminate Hmem.
Qed.

Lemma validate_move_structured_witness :
  In (lower (strip "  ROCK ")) MOVE_NAMES
  /\ (lower (strip "  ROCK ") <> "bomb"
      \/ user_bomb_used (game_state (initial (fun _ => 0%N))) = false)
  /\ exists r : ValidateResult,
       fst (validate_move "  ROCK " (initial (fun _ => 0%N))) = Ok r
       /\ r = mkValidateResult true "rock" "Valid move".
Proof.
  assert (Hin : In (lower (strip "  ROCK ")) MOVE_NAMES)
    by (left; reflexivity).
  assert (Hor : lower (strip "  ROCK ") <> "bomb"
                \/ user_bomb_used (game_state (initial (fun _ => 0%N)))
                   = false)
    by (right; reflexivity).
  split; [exact Hin|]; split; [exact Hor|].
  destruct (validate_move_structured "  ROCK " (initial (fun _ => 0%N)))
    as [r [Hr [Hvalid _]]].
  exists r; split; [exact Hr | exact (Hvalid Hin Hor)].
Defined.

(** C10. On every input string [validate_move] leaves the module state as it
    found it: the round number, both scores, both bomb flags and [game_over]
    (and the random source) are the same after the call as before, whether
    the result is valid or not. *)
Theorem validate_move_keeps_state :
  forall (raw : string) (w : World),
    snd (validate_move raw w) = w
    /\ game_state (snd (validate_move raw w)) = game_state w.
Proof.
  intros raw w; rewrite validate_move_cases; split; reflexivity.
Qed.

(** ** Round resolution on the module state *)

Lemma move_name_inv (x : string) :
  In x MOVE_NAMES -> exists m : Move, x = move_str m.
Proof.
  cbn; intros [<-|[<-|[<-|[<-|[]]]]];
    [exists rock | exists paper | exists scissors | exists bomb]; reflexivity.
Qed.

(** [random.choice] on a non-empty list takes one draw and returns an element
    of the list. *)
Lemma random_choice_returns (seq : list string) (w : World) :
  seq <> [] ->
  exists x : string,
    In x seq
    /\ random_choice seq w
       = (Ok x, mkWorld (game_state w) (rng w) (S (rng_pos w))).
Proof.
  destruct seq as [|a seq']; [congruence|]; intros _.
  eexists; split; [|reflexivity].
  apply nth_In, Nat.mod_upper_bound; discriminate.
Qed.

(** [get_bot_move] returns one of the four moves, never raises, reads the
    match state without changing it, and keeps off the bomb once the bot has
    used it. *)
Lemma get_bot_move_returns (w : World) :
  exists (b : Move) (pos : nat),
    get_bot_move w = (Ok (move_str b), mkWorld (game_state w) (rng w) pos)
    /\ (bot_bomb_used (game_state w) = true -> b <> bomb).
Proof.
  destruct w as [gs tape pos0].
  assert (Hthree : forall w0 : World,
             exists m : Move,
               m <> bomb
               /\ random_choice ["rock"; "paper"; "scissors"] w0
                  = (Ok (move_str m),
                     mkWorld (game_state w0) (rng w0) (S (rng_pos w0)))).
  { intros w0.
    destruct (random_choice_returns ["rock"; "paper"; "scissors"] w0
                ltac:(discriminate)) as [x [Hin ->]].
    cbn in Hin; destruct Hin as [<-|[<-|[<-|[]]]];
      [exists rock | exists paper | exists scissors];
      (split; [discriminate | reflexivity]). }
  assert (Hfour : forall w0 : World,
             exists m : Move,
               random_choice ["rock"; "paper"; "scissors"; "bomb"] w0
               = (Ok (move_str m),
                  mkWorld (game_state w0) (rng w0) (S (rng_pos w0)))).
  { intros w0.
    destruct (random_choice_returns ["rock"; "paper"; "scissors"; "bomb"] w0
                ltac:(discriminate)) as [x [Hin ->]].
    destruct (move_name_inv x Hin) as [m ->]; exists m; reflexivity. }
  unfold get_bot_move, bind, read_global, random_random, next_draw, ret.
  cbn -[random_choice Qgtb N.modulo].
  destruct (bot_bomb_used gs) eqn:Hused; cbn -[random_choice Qgtb N.modulo];
    rewrite ?Hused; cbn -[random_choice Qgtb N.modulo].
  - destruct (Hthree (mkWorld gs tape pos0)) as [m [Hm ->]].
    exists m, (S pos0); split; [reflexivity | intros _; exact Hm].
  - destruct (round_number gs =? 1); cbn -[random_choice Qgtb N.modulo];
      rewrite ?Hused; cbn -[random_choice Qgtb N.modulo].
    + destruct (Qgtb _ (1 # 2)).
      * exists bomb, (S pos0); split; [reflexivity | discriminate].
      * cbn -[random_choice Qgtb N.modulo]; rewrite ?Hused;
          cbn -[random_choice Qgtb N.modulo].
        destruct (Qgtb _ (7 # 10)).
        -- destruct (Hfour (mkWorld gs tape (S (S pos0)))) as [m ->].
           exists m, (S (S (S pos0))); split; [reflexivity | discriminate].
        -- destruct (Hthree (mkWorld gs tape (S (S pos0)))) as [m [_ ->]].
           exists m, (S (S (S pos0))); split; [reflexivity | discriminate].
    + destruct (Qgtb _ (7 # 10)).
      * destruct (Hfour (mkWorld gs tape (S pos0))) as [m ->].
        exists m, (S (S pos0)); split; [reflexivity | discriminate].
      * destruct (Hthree (mkWorld gs tape (S pos0))) as [m [_ ->]].
        exists m, (S (S pos0)); split; [reflexivity | discriminate].
Qed.

(** One call of [resolve_round_tool], once the bot's move and the winner are
    known. *)
Lemma resolve_round_tool_run
  (user_move bot_move winner : string) (w w1 : World) :
  get_bot_move w = (Ok bot_move, w1) ->
  resolve_round user_move bot_move = Ok winner ->
  resolve_round_tool user_move w
  = (Ok (round_result user_move bot_move winner
           (resolved (game_state w1) user_move bot_move winner)),
     mkWorld (resolved (game_state w1) user_move bot_move winner)
       (rng w1) (rng_pos w1)).
Proof.
  intros Hbot Hwin.
  unfold resolve_round_tool, bind at 1; rewrite Hbot.
  unfold bind, read_global, assign_global, lift, ret; cbn [game_state rng rng_pos].
  rewrite Hwin; unfold resolved; cbn zeta.
  destruct (is_game_over _); reflexivity.
Qed.

(** A round resolved with one of the four moves never raises; it leaves the
    state [resolved] describes, for a bot move among the four that is not a
    second bomb. *)
Lemma resolve_round_tool_canonical (m : Move) (w : World) :
  exists (b : Move) (pos : nat),
    let winner := outcome_str (dominance_spec m b) in
    let s' := resolved (game_state w) (move_str m) (move_str b) winner in
    (bot_bomb_used (game_state w) = true -> b <> bomb)
    /\ fst (get_bot_move w) = Ok (move_str b)
    /\ resolve_round_tool (move_str m) w
       = (Ok (round_result (move_str m) (move_str b) winner s'),
          mkWorld s' (rng w) pos).
Proof.
  destruct (get_bot_move_returns w) as [b [pos [Hbot Hbomb]]].
  exists b, pos; cbn zeta; split; [exact Hbomb|].
  split; [rewrite Hbot; reflexivity|].
  apply (resolve_round_tool_run _ _ _ _ _ Hbot).
  destruct m, b; reflexivity.
Qed.

(** The bot's move does not depend on [game_over]. *)
Lemma get_bot_move_game_over (flag : bool) (w : World) :
  get_bot_move (with_game_over flag w)
  = (fst (get_bot_move w), with_game_over flag (snd (get_bot_move w))).
Proof.
  destruct w as [[rn us bs ub bb go] tape pos0].
  unfold get_bot_move, with_game_over, bind, read_global, random_random,
    random_choice, next_draw, ret.
  cbn -[Qgtb N.modulo Nat.modulo nth Z.eqb].
  destruct bb; cbn -[Qgtb N.modulo Nat.modulo nth Z.eqb]; [reflexivity|].
  destruct (rn =? 1); cbn -[Qgtb N.modulo Nat.modulo nth];
    repeat (match goal with
            | |- context [if Qgtb ?q ?t then _ else _] => destruct (Qgtb q t)
            end; cbn -[Qgtb N.modulo Nat.modulo nth]);
    reflexivity.
Qed.

(** Apart from the flag itself, [resolved] does not look at [game_over]. *)
Lemma resolved_game_over (s : GameState) (um bm winner : string) :
  game_over s = true ->
  resolved s um bm winner
  = set_game_over (resolved (set_game_over s false) um bm winner) true.
Proof.
  intros Hover.
  unfold resolved, mark_bomb_used, update_score, is_game_over; cbn zeta.
  destruct s as [rn us bs ub bb go]; cbn in Hover; subst go.
  destruct (String.eqb um "bomb"), (String.eqb bm "bomb"),
    (String.eqb winner "user"), (String.eqb winner "bot");
    cbn -[Z.geb Z.add]; destruct (_ >=? 3); reflexivity.
Qed.

Example resolve_in_finished_match :
  game_state (snd (resolve_round_tool "rock"
                     (mkWorld (mkGameState 3 2 1 false true true)
                        (fun _ => 1%N) 0)))
  = mkGameState 4 2 2 false true true.
Proof. reflexivity. Qed.

(** C3. A round resolved when [game_over] is already true is not rejected:
    for each of the four user moves [resolve_round_tool] returns a result
    (no exception), marks the bombs of both sides, applies the score update
    for the winner and adds exactly 1 to [round_number]; the state and the
    result are the ones the same call gives when [game_over] is false, the
    flag apart. *)
Theorem resolve_round_tool_after_game_over :
  forall (m : Move) (w : World),
    game_over (game_state w) = true ->
    let s := game_state w in
    let out := resolve_round_tool (move_str m) w in
    let out0 := resolve_round_tool (move_str m) (with_game_over false w) in
    exists (b : Move) (r r0 : RoundResult),
      let winner := outcome_str (dominance_spec m b) in
      fst (get_bot_move w) = Ok (move_str b)
      /\ fst out = Ok r
      /\ r_bot_move r = move_str b /\ r_winner r = winner
      /\ user_bomb_used (game_state (snd out))
         = user_bomb_used (mark_bomb_used s "user" (move_str m))
      /\ bot_bomb_used (game_state (snd out))
         = bot_bomb_used (mark_bomb_used s "bot" (move_str b))
      /\ user_score (game_state (snd out))
         = user_score (update_score s winner)
      /\ bot_score (game_state (snd out))
         = bot_score (update_score s winner)
      /\ round_number (game_state (snd out)) = round_number s + 1
      /\ fst out0 = Ok r0
      /\ game_state (snd out)
         = set_game_over (game_state (snd out0)) true
      /\ r = round_result (r_user_move r0) (r_bot_move r0) (r_winner r0)
               (game_state (snd out)).
Proof.
  intros m w Hover s out out0.
  destruct (get_bot_move_returns w) as [b [pos [Hbot _]]].
  assert (Hwin : resolve_round (move_str m) (move_str b)
                 = Ok (outcome_str (dominance_spec m b)))
    by (destruct m, b; reflexivity).
  assert (Hbot0 : get_bot_move (with_game_over false w)
                  = (Ok (move_str b),
                     with_game_over false (mkWorld (game_state w) (rng w) pos)))
    by (rewrite get_bot_move_game_over, Hbot; reflexivity).
  pose proof (resolve_round_tool_run _ _ _ _ _ Hbot Hwin) as Hrun.
  pose proof (resolve_round_tool_run _ _ _ _ _ Hbot0 Hwin) as Hrun0.
  subst out out0; rewrite Hrun, Hrun0; cbn [fst snd game_state].
  exists b; do 2 eexists.
  split; [rewrite Hbot; reflexivity|].
  split; [reflexivity|].
  assert (Hres := resolved_game_over s (move_str m) (move_str b)
                    (outcome_str (dominance_spec m b)) Hover).
  repeat apply conj; try reflexivity; try exact Hres;
    subst s; destruct (game_state w) as [rn us bs ub bb go];
    unfold resolved, is_game_over;
    destruct m, b; cbn -[Z.geb Z.add]; try reflexivity;
    destruct (_ >=? 3); reflexivity.
Qed.

Lemma resolve_round_tool_after_game_over_witness :
  let w := mkWorld (mkGameState 3 2 1 false true true) (fun _ => 1%N) 0 in
  game_over (game_state w) = true
  /\ exists r : RoundResult,
       fst (resolve_round_tool "rock" w) = Ok r
       /\ round_number (game_state (snd (resolve_round_tool "rock" w)))
          = 3 + 1.
Proof.
  intros w.
  assert (Hover : game_over (game_state w) = true) by reflexivity.
  split; [exact Hover|].
  destruct (resolve_round_tool_after_game_over rock w Hover)
    as [b [r [r0 [_ [Hr [_ [_ [_ [_ [_ [_ [Hround _]]]]]]]]]]]].
  exists r; split; [exact Hr | exact Hround].
Defined.

(** ** Invariants of a session *)

Lemma match_invariant_new : match_invariant GameState_new.
Proof.
  unfold match_invariant; cbn; split; [lia|].
  split; [discriminate | lia].
Qed.

Lemma match_invariant_resolved (s : GameState) (um bm winner : string) :
  match_invariant s -> match_invariant (resolved s um bm winner).
Proof.
  unfold match_invariant, resolved, mark_bomb_used, update_score, is_game_over.
  destruct s as [rn us bs ub bb go]; cbn zeta; cbn [round_number user_score
    bot_score user_bomb_used bot_bomb_used game_over].
  intros [Hsum Hover].
  destruct (String.eqb um "bomb"), (String.eqb bm "bomb"),
    (String.eqb winner "user"), (String.eqb winner "bot");
    cbn -[Z.geb Z.add];
    match goal with
    | |- context [?x >=? 3] => destruct (Z.geb_spec x 3)
    end;
    cbn -[Z.add]; (split; [lia|]);
    (split; [intros Hgo; try lia; apply Hover in Hgo; lia | intros; lia]).
Qed.

Lemma resolved_keeps_flags (s : GameState) (um bm winner : string) :
  (user_bomb_used s = true ->
   user_bomb_used (resolved s um bm winner) = true)
  /\ (bot_bomb_used s = true ->
      bot_bomb_used (resolved s um bm winner) = true).
Proof.
  unfold resolved, mark_bomb_used, update_score, is_game_over.
  destruct s as [rn us bs ub bb go]; cbn zeta.
  destruct (String.eqb um "bomb"), (String.eqb bm "bomb"),
    (String.eqb winner "user"), (String.eqb winner "bot");
    cbn -[Z.geb Z.add]; destruct (_ >=? 3); cbn; split; intros; congruence.
Qed.

Lemma after_resolve (m : Move) (w : World) :
  exists b : Move,
    game_state (after (Resolve m) w)
    = resolved (game_state w) (move_str m) (move_str b)
        (outcome_str (dominance_spec m b)).
Proof.
  destruct (resolve_round_tool_canonical m w) as [b [pos [_ [_ Hrun]]]].
  exists b; unfold after; rewrite Hrun; reflexivity.
Qed.

Lemma after_update_game_state (a : string) (w : World) :
  game_state (after (UpdateGameState a) w)
  = if String.eqb a "reset" then GameState_new else game_state w.
Proof.
  unfold after, update_game_state_tool, bind, assign_global, read_global, ret.
  destruct (String.eqb a "reset"); reflexivity.
Qed.

Lemma match_invariant_after (c : Call) (w : World) :
  match_invariant (game_state w) -> match_invariant (game_state (after c w)).
Proof.
  intros Hinv; destruct c as [m | a |].
  - destruct (after_resolve m w) as [b ->].
    now apply match_invariant_resolved.
  - rewrite after_update_game_state.
    destruct (String.eqb a "reset"); [apply match_invariant_new | exact Hinv].
  - apply match_invariant_new.
Qed.

Lemma match_invariant_run (cs : list Call) :
  forall w : World,
    match_invariant (game_state w) ->
    match_invariant (game_state (run cs w)).
Proof.
  induction cs as [|c cs IH]; intros w Hinv; [exact Hinv|].
  cbn; apply IH, match_invariant_after, Hinv.
Qed.

Example scenario_rounds :
  map (fun cs => game_state (run cs (initial scenario_tape)))
    [[Resolve rock];
     [Resolve rock; Resolve bomb];
     [Resolve rock; Resolve bomb; Resolve paper]]
  = [mkGameState 1 1 0 false false false;
     mkGameState 2 2 0 true false false;
     mkGameState 3 2 1 true true true].
Proof. vm_compute. reflexivity. Qed.

(** C2, as stated, fails: after a round the user played bomb in, a reset
    turns [user_bomb_used] from true back to false. *)
Lemma reset_clears_bomb_flag :
  ~ keeps_bomb_flags ResetGame (run [Resolve bomb] (initial (fun _ => 0%N))).
Proof.
  intros [Huser _]; specialize (Huser eq_refl); discriminate Huser.
Qed.

(** C2, amended. In every state reached from the initial one by round
    resolutions with canonical moves and by resets,
    [user_score + bot_score <= round_number] and [game_over] is true iff
    [round_number >= 3]; a further round resolution leaves every bomb flag
    that is true, true; a reset gives the initial state again, both flags
    false. *)
Theorem session_invariants :
  forall (tape : nat -> N) (cs : list Call),
    let w := run cs (initial tape) in
    match_invariant (game_state w)
    /\ (forall m : Move, keeps_bomb_flags (Resolve m) w)
    /\ game_state (after ResetGame w) = GameState_new
    /\ game_state (after (UpdateGameState "reset") w) = GameState_new.
Proof.
  intros tape cs w; split; [|split; [|split]].
  - apply match_invariant_run, match_invariant_new.
  - intros m; unfold keeps_bomb_flags.
    destruct (after_resolve m w) as [b ->].
    apply resolved_keeps_flags.
  - reflexivity.
  - reflexivity.
Qed.

Lemma session_invariants_witness :
  let w := run [Resolve bomb; Resolve rock] (initial (fun _ => 0%N)) in
  user_bomb_used (game_state w) = true
  /\ user_bomb_used (game_state (after (Resolve paper) w)) = true.
Proof.
  intros w.
  assert (Hused : user_bomb_used (game_state w) = true) by reflexivity.
  split; [exact Hused|].
  exact (proj1 (proj1 (proj2 (session_invariants
                                (fun _ => 0%N) [Resolve bomb; Resolve rock]))
                  paper) Hused).
Defined.

(** * Further properties of the code *)

(** ** [resolve_round] on arbitrary strings *)

Lemma wins_lookup (u : string) :
  (In u ["rock"; "scissors"; "paper"] ->
   exists v : string, dict_get wins u = Some v /\ In v MOVE_NAMES)
  /\ (~ In u ["rock"; "scissors"; "paper"] -> dict_get wins u = None).
Proof.
  split.
  - cbn; intros [<-|[<-|[<-|[]]]]; eexists; (split; [reflexivity|]);
      cbn; tauto.
  - intros Hnot; unfold wins; cbn [dict_get].
    destruct (String.eqb_spec "rock" u) as [<-|_]; [cbn in Hnot; tauto|].
    destruct (String.eqb_spec "scissors" u) as [<-|_]; [cbn in Hnot; tauto|].
    destruct (String.eqb_spec "paper" u) as [<-|_]; [cbn in Hnot; tauto|].
    reflexivity.
Qed.

(** X1. [resolve_round] raises exactly when the two strings differ, neither is
    'bomb' and the user's is not a key of [wins]; the exception is then
    [KeyError] on the user's string.  In every other case it returns one of
    'user', 'bot', 'draw'. *)
Theorem resolve_round_key_error :
  forall u b : string,
    ((u <> b /\ u <> "bomb" /\ b <> "bomb"
      /\ ~ In u ["rock"; "scissors"; "paper"]) ->
     resolve_round u b = Raise (KeyError u))
    /\ (~ (u <> b /\ u <> "bomb" /\ b <> "bomb"
           /\ ~ In u ["rock"; "scissors"; "paper"]) ->
        exists o : Outcome, resolve_round u b = Ok (outcome_str o)).
Proof.
  intros u b; unfold resolve_round; split.
  - intros [Hub [Hu [Hb Hkey]]].
    apply String.eqb_neq in Hub, Hu, Hb; rewrite Hub, Hu, Hb; cbn [andb].
    now rewrite (proj2 (wins_lookup u) Hkey).
  - intros Hnot.
    destruct (String.eqb_spec u b) as [Hub|Hub]; [exists draw; reflexivity|].
    destruct (String.eqb_spec u "bomb") as [Hu|Hu].
    { destruct (String.eqb b "bomb"); cbn [andb];
        [exists draw | exists user]; reflexivity. }
    cbn [andb].
    destruct (String.eqb_spec b "bomb") as [Hb|Hb]; [exists bot; reflexivity|].
    destruct (in_dec string_dec u ["rock"; "scissors"; "paper"]) as [Hin|Hout].
    + destruct (proj1 (wins_lookup u) Hin) as [v [-> _]].
      destruct (String.eqb v b); [exists user | exists bot]; reflexivity.
    + exfalso; apply Hnot; tauto.
Qed.

Lemma resolve_round_key_error_witness :
  ("lizard" <> "rock" /\ "lizard" <> "bomb" /\ "rock" <> "bomb"
   /\ ~ In "lizard" ["rock"; "scissors"; "paper"])
  /\ resolve_round "lizard" "rock" = Raise (KeyError "lizard").
Proof.
  assert (H : "lizard" <> "rock" /\ "lizard" <> "bomb" /\ "rock" <> "bomb"
              /\ ~ In "lizard" ["rock"; "scissors"; "paper"]).
  { repeat split; try discriminate.
    cbn; intros [H|[H|[H|[]]]]; discriminate H. }
  split; [exact H|].
  exact (proj1 (resolve_round_key_error "lizard" "rock") H).
Defined.

(** X2. A bot string that is not a move name never makes [resolve_round] raise
    when the user's move is one of the four: it loses to 'bomb' and beats
    'rock', 'paper' and 'scissors'. *)
Theorem resolve_round_unknown_bot_move :
  forall (m : Move) (b : string),
    ~ In b MOVE_NAMES ->
    resolve_round (move_str m) b
    = Ok (if Move_eqb m bomb then "user" else "bot").
Proof.
  intros m b Hnot; unfold resolve_round.
  assert (Hneq : forall x : Move, String.eqb (move_str x) b = false).
  { intros x; apply String.eqb_neq; intros <-; apply Hnot.
    destruct x; cbn; tauto. }
  assert (Hb : String.eqb b "bomb" = false).
  { rewrite String.eqb_sym; exact (Hneq bomb). }
  rewrite (Hneq m), Hb, andb_false_r.
  destruct m; cbn; try reflexivity.
  - specialize (Hneq scissors); cbn in Hneq; now rewrite Hneq.
  - specialize (Hneq rock); cbn in Hneq; now rewrite Hneq.
  - specialize (Hneq paper); cbn in Hneq; now rewrite Hneq.
Qed.

Lemma resolve_round_unknown_bot_move_witness :
  ~ In "lizard" MOVE_NAMES /\ resolve_round "paper" "lizard" = Ok "bot".
Proof.
  assert (H : ~ In "lizard" MOVE_NAMES).
  { cbn; intros [H|[H|[H|[H|[]]]]]; discriminate H. }
  split; [exact H|].
  exact (resolve_round_unknown_bot_move paper "lizard" H).
Defined.

(** X3. On the four moves [resolve_round] is a mirror: the user wins a pair iff
    the bot wins the swapped pair, and the only draws are on equal moves. *)
Theorem resolve_round_mirror :
  forall a b : Move,
    (resolve_round (move_str a) (move_str b) = Ok "user"
     <-> resolve_round (move_str b) (move_str a) = Ok "bot")
    /\ (resolve_round (move_str a) (move_str b) = Ok "draw" <-> a = b).
Proof.
  intros [] []; cbn; repeat split; intros; congruence.
Qed.

Lemma resolve_round_mirror_witness :
  resolve_round "scissors" "paper" = Ok "user"
  /\ resolve_round "paper" "scissors" = Ok "bot".
Proof.
  assert (H : resolve_round (move_str scissors) (move_str paper) = Ok "user")
    by reflexivity.
  split; [exact H|].
  exact (proj1 (proj1 (resolve_round_mirror scissors paper)) H).
Defined.

(** ** Composition of the pure operations *)

(** X4. Whatever string it is given as the winner, [update_score] lowers no
    score, raises the two scores together by at most 1, and keeps the round
    number, the bomb flags and [game_over]; a string other than 'user' and
    'bot' (not only 'draw') leaves the state as it is. *)
Theorem update_score_any_winner :
  forall (s : GameState) (winner : string),
    (winner <> "user" -> winner <> "bot" -> update_score s winner = s)
    /\ user_score s <= user_score (update_score s winner)
    /\ bot_score s <= bot_score (update_score s winner)
    /\ user_score (update_score s winner) + bot_score (update_score s winner)
       <= user_score s + bot_score s + 1
    /\ same_round_and_flags s (update_score s winner).
Proof.
  intros s winner; unfold update_score, same_round_and_flags.
  destruct (String.eqb_spec winner "user") as [Hu|Hu];
    [|destruct (String.eqb_spec winner "bot") as [Hb|Hb]];
    cbn; repeat split; intros; try lia; try reflexivity; congruence.
Qed.

Lemma update_score_any_winner_witness :
  "User" <> "user" /\ "User" <> "bot"
  /\ update_score (mkGameState 2 1 0 false true false) "User"
     = mkGameState 2 1 0 false true false.
Proof.
  assert (Hu : "User" <> "user") by discriminate.
  assert (Hb : "User" <> "bot") by discriminate.
  split; [exact Hu|]; split; [exact Hb|].
  exact (proj1 (update_score_any_winner
                  (mkGameState 2 1 0 false true false) "User") Hu Hb).
Defined.

(** X5. The score update and the bomb marking touch different fields, so they
    can be done in either order: marking commutes with scoring, two markings
    commute, and two score updates commute. *)
Theorem mark_and_score_commute :
  forall (s : GameState) (player move winner player' move' winner' : string),
    mark_bomb_used (update_score s winner) player move
    = update_score (mark_bomb_used s player move) winner
    /\ mark_bomb_used (mark_bomb_used s player move) player' move'
       = mark_bomb_used (mark_bomb_used s player' move') player move
    /\ update_score (update_score s winner) winner'
       = update_score (update_score s winner') winner.
Proof.
  intros s player move winner player' move' winner'.
  unfold mark_bomb_used, update_score.
  destruct (String.eqb move "bomb"), (String.eqb player "user"),
    (String.eqb player "bot"), (String.eqb winner "user"),
    (String.eqb winner "bot"), (String.eqb move' "bomb"),
    (String.eqb player' "user"), (String.eqb player' "bot"),
    (String.eqb winner' "user"), (String.eqb winner' "bot");
    repeat split; reflexivity.
Qed.

(** X6. Marking and checking: once a player's bomb is marked, [can_use_bomb]
    is false for that player; marking for one player does not change what
    [can_use_bomb] says of another; and no marking makes a bomb usable
    again. *)
Theorem can_use_bomb_after_mark :
  forall (s : GameState) (player other move : string),
    can_use_bomb player (mark_bomb_used s player "bomb") = false
    /\ (other <> player ->
        can_use_bomb other (mark_bomb_used s player move)
        = can_use_bomb other s)
    /\ (can_use_bomb other (mark_bomb_used s player move) = true ->
        can_use_bomb other s = true).
Proof.
  intros s player other move; unfold can_use_bomb, mark_bomb_used.
  split; [|split].
  - cbn.
    destruct (String.eqb player "user"); [reflexivity|].
    destruct (String.eqb player "bot"); reflexivity.
  - intros Hneq.
    destruct (String.eqb move "bomb"); [|reflexivity].
    destruct (String.eqb_spec player "user") as [->|Hu].
    + apply String.eqb_neq in Hneq; rewrite Hneq; reflexivity.
    + destruct (String.eqb_spec player "bot") as [->|Hb]; [|reflexivity].
      destruct (String.eqb other "user"); [reflexivity|].
      apply String.eqb_neq in Hneq; rewrite Hneq; reflexivity.
  - destruct (String.eqb move "bomb"); [|exact (fun H => H)].
    destruct (String.eqb player "user"), (String.eqb player "bot"),
      (String.eqb other "user"), (String.eqb other "bot");
      cbn; try exact (fun H => H); try discriminate;
      destruct (user_bomb_used s), (bot_bomb_used s); cbn; congruence.
Qed.

Lemma can_use_bomb_after_mark_witness :
  "user" <> "bot"
  /\ can_use_bomb "user" (mark_bomb_used GameState_new "bot" "bomb") = true.
Proof.
  assert (H : "user" <> "bot") by discriminate.
  split; [exact H|].
  exact (eq_trans
           (proj1 (proj2 (can_use_bomb_after_mark
                            GameState_new "bot" "user" "bomb")) H)
           eq_refl).
Defined.

(** X7. Two strings that pass [is_valid_move] normalize to move names, and
    [resolve_round] on the normalized pair returns the outcome of the rules
    without raising; normalizing again changes nothing, and a normalized
    string is valid exactly when the raw one is. *)
Theorem valid_moves_resolve :
  forall a b : string,
    normalize_move (normalize_move a) = normalize_move a
    /\ is_valid_move (normalize_move a) = is_valid_move a
    /\ (is_valid_move a = true -> is_valid_move b = true ->
        exists ma mb : Move,
          normalize_move a = move_str ma
          /\ normalize_move b = move_str mb
          /\ resolve_round (normalize_move a) (normalize_move b)
             = Ok (outcome_str (dominance_spec ma mb))).
Proof.
  intros a b; unfold normalize_move, is_valid_move.
  rewrite !lower_idem; split; [reflexivity|]; split; [reflexivity|].
  intros Ha Hb; apply mem_In in Ha, Hb.
  destruct (move_name_inv _ Ha) as [ma ->].
  destruct (move_name_inv _ Hb) as [mb ->].
  exists ma, mb; split; [reflexivity|]; split; [reflexivity|].
  destruct ma, mb; reflexivity.
Qed.

Lemma valid_moves_resolve_witness :
  is_valid_move "BOMB" = true /\ is_valid_move "Rock" = true
  /\ resolve_round (normalize_move "BOMB") (normalize_move "Rock") = Ok "user".
Proof.
  assert (Ha : is_valid_move "BOMB" = true) by reflexivity.
  assert (Hb : is_valid_move "Rock" = true) by reflexivity.
  split; [exact Ha|]; split; [exact Hb|].
  destruct (proj2 (proj2 (valid_moves_resolve "BOMB" "Rock")) Ha Hb)
    as [ma [mb [Hma [Hmb Hres]]]].
  vm_compute in Hma, Hmb.
  destruct ma; try discriminate Hma; destruct mb; try discriminate Hmb.
  exact Hres.
Defined.

(** ** The bot's move *)

(** X8. [get_bot_move] never raises and returns one of the four move names; it
    leaves the match state and the tape as they are and takes between one
    and three draws, at most two outside the second round; once the bot's
    bomb is used it takes one draw and never returns 'bomb'. *)
Theorem get_bot_move_safe :
  forall w : World,
    exists (b : Move) (k : nat),
      get_bot_move w
      = (Ok (move_str b), mkWorld (game_state w) (rng w) (rng_pos w + k))
      /\ (1 <= k <= 3)%nat
      /\ (bot_bomb_used (game_state w) = true -> b <> bomb /\ k = 1%nat)
      /\ (round_number (game_state w) <> 1 -> (k <= 2)%nat).
Proof.
  intros [[rn us bs ub bb go] tape pos0].
  assert (Hthree : forall w0 : World,
             exists m : Move,
               m <> bomb
               /\ random_choice ["rock"; "paper"; "scissors"] w0
                  = (Ok (move_str m),
                     mkWorld (game_state w0) (rng w0) (S (rng_pos w0)))).
  { intros w0.
    destruct (random_choice_returns ["rock"; "paper"; "scissors"] w0
                ltac:(discriminate)) as [x [Hin ->]].
    cbn in Hin; destruct Hin as [<-|[<-|[<-|[]]]];
      [exists rock | exists paper | exists scissors];
      (split; [discriminate | reflexivity]). }
  assert (Hfour : forall w0 : World,
             exists m : Move,
               random_choice ["rock"; "paper"; "scissors"; "bomb"] w0
               = (Ok (move_str m),
                  mkWorld (game_state w0) (rng w0) (S (rng_pos w0)))).
  { intros w0.
    destruct (random_choice_returns ["rock"; "paper"; "scissors"; "bomb"] w0
                ltac:(discriminate)) as [x [Hin ->]].
    destruct (move_name_inv x Hin) as [m ->]; exists m; reflexivity. }
  unfold get_bot_move, bind, read_global, random_random, next_draw, ret.
  cbn -[random_choice Qgtb N.modulo Z.eqb Nat.add].
  destruct bb; cbn -[random_choice Qgtb N.modulo Z.eqb Nat.add].
  - destruct (Hthree (mkWorld (mkGameState rn us bs ub true go) tape pos0))
      as [m [Hm ->]].
    exists m, 1%nat; cbn [game_state rng rng_pos]; rewrite Nat.add_1_r.
    repeat split; try lia; try assumption.
  - destruct (Z.eqb_spec rn 1) as [Hrn|Hrn];
      cbn -[random_choice Qgtb N.modulo Nat.add].
    + destruct (Qgtb _ (1 # 2)).
      * exists bomb, 1%nat; rewrite Nat.add_1_r.
        repeat split; try lia; try discriminate.
      * cbn -[random_choice Qgtb N.modulo Nat.add].
        destruct (Qgtb _ (7 # 10)).
        -- destruct (Hfour (mkWorld (mkGameState rn us bs ub false go) tape
                              (S (S pos0)))) as [m ->].
           exists m, 3%nat; cbn [game_state rng rng_pos].
           replace (pos0 + 3)%nat with (S (S (S pos0))) by lia.
           repeat split; try lia; try discriminate.
        -- destruct (Hthree (mkWorld (mkGameState rn us bs ub false go) tape
                               (S (S pos0)))) as [m [_ ->]].
           exists m, 3%nat; cbn [game_state rng rng_pos].
           replace (pos0 + 3)%nat with (S (S (S pos0))) by lia.
           repeat split; try lia; try discriminate.
    + destruct (Qgtb _ (7 # 10)).
      * destruct (Hfour (mkWorld (mkGameState rn us bs ub false go) tape
                           (S pos0))) as [m ->].
        exists m, 2%nat; cbn [game_state rng rng_pos].
        replace (pos0 + 2)%nat with (S (S pos0)) by lia.
        repeat split; try lia; try discriminate.
      * destruct (Hthree (mkWorld (mkGameState rn us bs ub false go) tape
                            (S pos0))) as [m [_ ->]].
        exists m, 2%nat; cbn [game_state rng rng_pos].
        replace (pos0 + 2)%nat with (S (S pos0)) by lia.
        repeat split; try lia; try discriminate.
Qed.

Lemma get_bot_move_safe_witness :
  let w := mkWorld (mkGameState 2 1 1 false true false) (fun _ => 5%N) 4 in
  bot_bomb_used (game_state w) = true
  /\ exists b : Move,
       fst (get_bot_move w) = Ok (move_str b) /\ b <> bomb
       /\ rng_pos (snd (get_bot_move w)) = 5%nat.
Proof.
  intros w.
  assert (Hused : bot_bomb_used (game_state w) = true) by reflexivity.
  split; [exact Hused|].
  destruct (get_bot_move_safe w) as [b [k [Hrun [_ [Hbomb _]]]]].
  destruct (Hbomb Hused) as [Hb Hk].
  exists b; rewrite Hrun, Hk; repeat split; exact Hb.
Defined.

Example tape_for_second_round :
  fst (get_bot_move (mkWorld (mkGameState 1 1 0 false false false)
                       (tape_for (mkGameState 1 1 0 false false false)
                          7 scissors) 7))
  = Ok "scissors".
Proof. reflexivity. Qed.

(** X9. Nothing is ruled out for the bot but a second bomb: in any state and at
    any tape position, every move other than an already used bomb is
    returned by [get_bot_move] for some draws. *)
Theorem get_bot_move_any_move :
  forall (gs : GameState) (pos : nat) (m : Move),
    (m = bomb -> bot_bomb_used gs = false) ->
    exists tape : nat -> N,
      fst (get_bot_move (mkWorld gs tape pos)) = Ok (move_str m).
Proof.
  intros gs pos m Hbomb.
  destruct (bot_bomb_used gs) eqn:Hused.
  - exists (fun _ => choice_index m).
    unfold get_bot_move, bind, read_global, random_random, next_draw, ret.
    cbn -[Qgtb N.modulo Z.eqb]; rewrite Hused; cbn -[Qgtb N.modulo Z.eqb].
    rewrite ?Hused; cbn -[Qgtb N.modulo Z.eqb].
    destruct m; try reflexivity.
    specialize (Hbomb eq_refl); discriminate Hbomb.
  - exists (tape_for gs pos m).
    unfold get_bot_move, bind, read_global, random_random, next_draw, ret.
    cbn -[Qgtb N.modulo Z.eqb tape_for random_choice].
    rewrite Hused; cbn -[Qgtb N.modulo Z.eqb tape_for random_choice].
    assert (H0 : forall k : nat,
               tape_for gs pos m (k + pos)
               = nth k (if round_number gs =? 1
                        then [0%N; 9007199254740991%N; choice_index m]
                        else [9007199254740991%N; choice_index m])
                   (choice_index m)).
    { intros k; unfold tape_for; now rewrite Nat.add_sub. }
    pose proof (H0 0%nat) as E0; pose proof (H0 1%nat) as E1;
      pose proof (H0 2%nat) as E2; cbn [Nat.add] in E0, E1, E2.
    unfold random_choice, bind, next_draw, lift, ret.
    destruct (round_number gs =? 1);
      repeat first [ rewrite E0 | rewrite E1 | rewrite E2 | rewrite Hused
                   | progress cbn -[tape_for] ];
      destruct m; reflexivity.
Qed.

Lemma get_bot_move_any_move_witness :
  (bomb = bomb -> bot_bomb_used GameState_new = false)
  /\ exists tape : nat -> N,
       fst (get_bot_move (mkWorld GameState_new tape 0)) = Ok "bomb".
Proof.
  assert (H : bomb = bomb -> bot_bomb_used GameState_new = false)
    by (intros _; reflexivity).
  split; [exact H|].
  exact (get_bot_move_any_move GameState_new 0 bomb H).
Defined.

(** ** [resolve_round_tool] on arbitrary strings *)

(** One call of [resolve_round_tool] in which [resolve_round] raises: the
    exception leaves the function after the two markings. *)
Lemma resolve_round_tool_raise
  (user_move bot_move : string) (e : exn) (w w1 : World) :
  get_bot_move w = (Ok bot_move, w1) ->
  resolve_round user_move bot_move = Raise e ->
  resolve_round_tool user_move w
  = (Raise e,
     mkWorld (mark_bomb_used (mark_bomb_used (game_state w1) "user" user_move)
                "bot" bot_move)
       (rng w1) (rng_pos w1)).
Proof.
  intros Hbot Hraise.
  unfold resolve_round_tool, bind at 1; rewrite Hbot.
  unfold bind, read_global, assign_global, lift, ret;
    cbn [game_state rng rng_pos].
  rewrite Hraise; reflexivity.
Qed.

(** What [resolve_round] does with a user string that is not a move name. *)
Lemma resolve_round_key_error_aux (u b : string) :
  ~ In u MOVE_NAMES ->
  (In b ["rock"; "paper"; "scissors"] ->
   resolve_round u b = Raise (KeyError u))
  /\ resolve_round u "bomb" = Ok "bot".
Proof.
  intros Hnot.
  assert (Hneq : forall x : Move, String.eqb u (move_str x) = false).
  { intros x; apply String.eqb_neq; intros ->; apply Hnot.
    destruct x; cbn; tauto. }
  assert (Hkey : dict_get wins u = None).
  { apply wins_lookup; intros Hin; apply Hnot; cbn in Hin |- *; tauto. }
  pose proof (Hneq bomb) as Hbomb; pose proof (Hneq rock) as Hrock;
    pose proof (Hneq paper) as Hpaper; pose proof (Hneq scissors) as Hsc.
  cbn [move_str] in Hbomb, Hrock, Hpaper, Hsc.
  split.
  - intros Hin; unfold resolve_round.
    rewrite Hbomb; cbn [andb].
    cbn in Hin; destruct Hin as [<-|[<-|[<-|[]]]];
      [rewrite Hrock | rewrite Hpaper | rewrite Hsc];
      (replace (String.eqb _ "bomb") with false by reflexivity);
      rewrite Hkey; reflexivity.
  - unfold resolve_round; rewrite Hbomb; cbn [andb].
    rewrite String.eqb_refl; reflexivity.
Qed.

(** If [resolve_round] raises, it raises [KeyError] on the user's string,
    which is then neither a move name nor equal to the bot's string, and the
    bot's string is not 'bomb'. *)
Lemma resolve_round_raise_inv (u b : string) (e : exn) :
  resolve_round u b = Raise e ->
  e = KeyError u /\ ~ In u MOVE_NAMES /\ u <> "bomb" /\ b <> "bomb".
Proof.
  unfold resolve_round.
  destruct (String.eqb_spec u b) as [Hub|Hub]; [discriminate|].
  destruct (String.eqb_spec u "bomb") as [Hu|Hu].
  { destruct (String.eqb b "bomb"); discriminate. }
  cbn [andb].
  destruct (String.eqb_spec b "bomb") as [Hb|Hb]; [discriminate|].
  destruct (dict_get wins u) as [v|] eqn:Hkey.
  { destruct (String.eqb v b); discriminate. }
  intros He; injection He as <-; repeat split; try assumption.
  intros Hin.
  assert (Hin3 : In u ["rock"; "scissors"; "paper"])
    by (cbn in Hin |- *; intuition congruence).
  destruct (proj1 (wins_lookup u) Hin3) as [v [Hv _]]; congruence.
Qed.

(** X10. If [resolve_round_tool] raises, the exception is [KeyError] on the
    user's string, that string is not a move name, and the match state is
    the one before the call (draws have been taken).  On a string that is
    not a move name the call either raises so, or the bot has played 'bomb'
    and the round is resolved as a win for the bot. *)
Theorem resolve_round_tool_failure :
  forall (user_move : string) (w : World),
    (forall e : exn,
        fst (resolve_round_tool user_move w) = Raise e ->
        e = KeyError user_move
        /\ ~ In user_move MOVE_NAMES
        /\ game_state (snd (resolve_round_tool user_move w)) = game_state w)
    /\ (~ In user_move MOVE_NAMES ->
        fst (resolve_round_tool user_move w) = Raise (KeyError user_move)
        \/ (exists r : RoundResult,
               fst (resolve_round_tool user_move w) = Ok r
               /\ r_bot_move r = "bomb" /\ r_winner r = "bot"
               /\ game_state (snd (resolve_round_tool user_move w))
                  = resolved (game_state w) user_move "bomb" "bot")).
Proof.
  intros um w.
  destruct (get_bot_move_returns w) as [b [pos [Hbot _]]].
  destruct (resolve_round um (move_str b)) as [winner|e0] eqn:Hres.
  - rewrite (resolve_round_tool_run _ _ _ _ _ Hbot Hres); cbn [fst snd].
    split; [intros e He; discriminate He|].
    intros Hnot; right; eexists; split; [reflexivity|].
    cbn [r_bot_move r_winner round_result game_state].
    assert (Hb : b = bomb).
    { destruct b; try reflexivity; exfalso;
        cbn [move_str] in Hres;
        rewrite (proj1 (resolve_round_key_error_aux um _ Hnot)) in Hres;
        try discriminate Hres; cbn; tauto. }
    subst b; cbn [move_str] in *.
    rewrite (proj2 (resolve_round_key_error_aux um "bomb" Hnot)) in Hres.
    injection Hres as <-; repeat split; reflexivity.
  - rewrite (resolve_round_tool_raise _ _ _ _ _ Hbot Hres); cbn [fst snd].
    destruct (resolve_round_raise_inv um (move_str b) e0 Hres)
      as [-> [Hnot [Hu Hb]]].
    split.
    + intros e He; injection He as <-; split; [reflexivity|].
      split; [exact Hnot|].
      cbn [game_state]; unfold mark_bomb_used.
      apply String.eqb_neq in Hu, Hb; rewrite Hu, Hb; reflexivity.
    + intros _; left; reflexivity.
Qed.

Lemma resolve_round_tool_failure_witness :
  let w := mkWorld (mkGameState 1 0 1 false true false) (fun _ => 0%N) 0 in
  fst (resolve_round_tool "lizard" w) = Raise (KeyError "lizard")
  /\ game_state (snd (resolve_round_tool "lizard" w)) = game_state w.
Proof.
  intros w.
  assert (H : fst (resolve_round_tool "lizard" w) = Raise (KeyError "lizard"))
    by reflexivity.
  split; [exact H|].
  exact (proj2 (proj2 (proj1 (resolve_round_tool_failure "lizard" w) _ H))).
Defined.

(** ** Validation followed by resolution *)

(** X11. A move that [validate_move] accepts can be resolved: it is one of the
    four names, it is 'bomb' only while the user's bomb is unused, and
    [resolve_round_tool] on it returns a result for that move and advances
    the round by one. *)
Theorem validated_move_resolves :
  forall (raw : string) (w : World) (r : ValidateResult),
    fst (validate_move raw w) = Ok r ->
    valid r = true ->
    In (move r) MOVE_NAMES
    /\ (move r = "bomb" -> user_bomb_used (game_state w) = false)
    /\ exists rr : RoundResult,
         fst (resolve_round_tool (move r) w) = Ok rr
         /\ r_user_move rr = move r
         /\ round_number (game_state (snd (resolve_round_tool (move r) w)))
            = round_number (game_state w) + 1.
Proof.
  intros raw w r Hr Hvalid.
  rewrite validate_move_cases in Hr; cbn [fst] in Hr.
  match type of Hr with
  | Ok ?x = Ok _ => assert (Hx : x = r) by congruence
  end.
  clear Hr; subst r.
  set (u := lower (strip raw)) in *.
  destruct (mem u MOVE_NAMES) eqn:Hmem; cbn [negb valid] in Hvalid |- *;
    [|discriminate Hvalid].
  apply mem_In in Hmem.
  destruct (String.eqb_spec u "bomb") as [Hb|Hb];
    destruct (user_bomb_used (game_state w)) eqn:Hflag;
    cbn [andb valid move] in Hvalid |- *; try discriminate Hvalid;
    (split; [exact Hmem|]); (split; [intros; congruence|]);
    destruct (move_name_inv u Hmem) as [m Hm]; rewrite Hm;
    destruct (resolve_round_tool_canonical m w) as [b [pos [_ [_ Hrun]]]];
    rewrite Hrun; cbn [fst snd game_state];
    (eexists; split; [reflexivity|]); (split; [reflexivity|]);
    unfold resolved, is_game_over;
    destruct (game_state w) as [rn us bs ub bb go];
    destruct m, b; cbn -[Z.geb Z.add]; destruct (_ >=? 3); reflexivity.
Qed.

Lemma validated_move_resolves_witness :
  let w := initial scenario_tape in
  fst (validate_move " Rock" w) = Ok (mkValidateResult true "rock" "Valid move")
  /\ exists rr : RoundResult,
       fst (resolve_round_tool "rock" w) = Ok rr
       /\ round_number (game_state (snd (resolve_round_tool "rock" w))) = 0 + 1.
Proof.
  intros w.
  assert (Hr : fst (validate_move " Rock" w)
               = Ok (mkValidateResult true "rock" "Valid move"))
    by reflexivity.
  split; [exact Hr|].
  destruct (validated_move_resolves " Rock" w _ Hr eq_refl)
    as [_ [_ [rr [Hrr [_ Hround]]]]].
  exists rr; split; [exact Hrr | exact Hround].
Defined.

(** The user's flag after rounds: resolving 'bomb' sets it, and further
    rounds keep it. *)
Lemma user_bomb_used_after_bomb (w : World) :
  user_bomb_used (game_state (snd (resolve_round_tool "bomb" w))) = true.
Proof.
  destruct (resolve_round_tool_canonical bomb w) as [b [pos [_ [_ Hrun]]]].
  cbn [move_str] in Hrun; rewrite Hrun; cbn [snd game_state].
  unfold resolved, is_game_over.
  destruct (game_state w) as [rn us bs ub bb go].
  destruct b; cbn -[Z.geb Z.add]; destruct (_ >=? 3); reflexivity.
Qed.

Lemma user_bomb_used_kept (ms : list Move) :
  forall w : World,
    user_bomb_used (game_state w) = true ->
    user_bomb_used (game_state (run (map Resolve ms) w)) = true.
Proof.
  induction ms as [|m ms IH]; intros w Hused; [exact Hused|].
  cbn [map run fold_left]; apply IH.
  destruct (after_resolve m w) as [b ->].
  now apply resolved_keeps_flags.
Qed.

(** X12. Validation stops a second bomb: once a round has been resolved with the
    user's 'bomb', [validate_move] rejects every spelling of 'bomb' after
    any number of further rounds, with the reason that the bomb was used;
    after a reset it accepts 'bomb' again. *)
Theorem bomb_rejected_after_use :
  forall (w : World) (ms : list Move) (raw : string),
    lower (strip raw) = "bomb" ->
    let w' := run (map Resolve ms) (snd (resolve_round_tool "bomb" w)) in
    fst (validate_move raw w')
    = Ok (mkValidateResult false "bomb" "You have already used your bomb!")
    /\ fst (validate_move raw (after ResetGame w'))
       = Ok (mkValidateResult true "bomb" "Valid move").
Proof.
  intros w ms raw Hraw w'.
  pose proof (user_bomb_used_kept ms _ (user_bomb_used_after_bomb w)) as Hused.
  fold w' in Hused.
  rewrite !validate_move_cases, Hraw, Hused; split; reflexivity.
Qed.

Lemma bomb_rejected_after_use_witness :
  lower (strip " BOMB ") = "bomb"
  /\ fst (validate_move " BOMB "
            (run (map Resolve [rock; paper])
               (snd (resolve_round_tool "bomb" (initial scenario_tape)))))
     = Ok (mkValidateResult false "bomb" "You have already used your bomb!").
Proof.
  assert (H : lower (strip " BOMB ") = "bomb") by reflexivity.
  split; [exact H|].
  exact (proj1 (bomb_rejected_after_use (initial scenario_tape)
                  [rock; paper] " BOMB " H)).
Defined.

(** X13. The single use of the bomb is enforced by [validate_move] only:
    [resolve_round_tool] resolves 'bomb' for a user whose bomb flag is
    already true, and when the bot's bomb is used too the user wins that
    round and scores. *)
Theorem resolve_round_tool_second_bomb :
  forall w : World,
    user_bomb_used (game_state w) = true ->
    bot_bomb_used (game_state w) = true ->
    exists r : RoundResult,
      fst (resolve_round_tool "bomb" w) = Ok r
      /\ r_winner r = "user"
      /\ r_user_score r = user_score (game_state w) + 1
      /\ user_score (game_state (snd (resolve_round_tool "bomb" w)))
         = user_score (game_state w) + 1.
Proof.
  intros w Hu Hb.
  destruct (resolve_round_tool_canonical bomb w) as [b [pos [Hnb [_ Hrun]]]].
  specialize (Hnb Hb); cbn [move_str] in Hrun; rewrite Hrun; cbn [fst snd].
  eexists; split; [reflexivity|].
  cbn [r_winner r_user_score round_result game_state].
  unfold resolved, is_game_over.
  destruct (game_state w) as [rn us bs ub bb go].
  destruct b; try congruence;
    cbn -[Z.geb Z.add]; destruct (_ >=? 3); repeat split; reflexivity.
Qed.

Lemma resolve_round_tool_second_bomb_witness :
  let w := mkWorld (mkGameState 2 1 1 true true false) (fun _ => 1%N) 0 in
  user_bomb_used (game_state w) = true
  /\ bot_bomb_used (game_state w) = true
  /\ exists r : RoundResult,
       fst (resolve_round_tool "bomb" w) = Ok r /\ r_winner r = "user".
Proof.
  intros w.
  assert (Hu : user_bomb_used (game_state w) = true) by reflexivity.
  assert (Hb : bot_bomb_used (game_state w) = true) by reflexivity.
  split; [exact Hu|]; split; [exact Hb|].
  destruct (resolve_round_tool_second_bomb w Hu Hb) as [r [Hr [Hw _]]].
  exists r; split; [exact Hr | exact Hw].
Defined.

(** ** Results, queries and resets *)

(** X14. The dict a resolved round returns describes the state the call leaves,
    and a query made next ([update_game_state_tool] with any action other
    than 'reset') returns the same figures and changes nothing. *)
Theorem round_result_then_query :
  forall (user_move : string) (w : World) (r : RoundResult),
    fst (resolve_round_tool user_move w) = Ok r ->
    let w' := snd (resolve_round_tool user_move w) in
    r = round_result user_move (r_bot_move r) (r_winner r) (game_state w')
    /\ forall action : string,
         action <> "reset" ->
         update_game_state_tool action w'
         = (Ok (mkStateResult (r_round r) (r_user_score r) (r_bot_score r)
                  (r_user_bomb_available r) (r_bot_bomb_available r)
                  (r_game_over r)),
            w').
Proof.
  intros um w r Hr w'; subst w'.
  destruct (get_bot_move_returns w) as [b [pos [Hbot _]]].
  destruct (resolve_round um (move_str b)) as [winner|e] eqn:Hres.
  - rewrite (resolve_round_tool_run _ _ _ _ _ Hbot Hres) in Hr |- *.
    cbn [fst snd game_state] in Hr |- *.
    assert (Hx : round_result um (move_str b) winner
                   (resolved (game_state w) um (move_str b) winner) = r)
      by congruence.
    subst r; split; [reflexivity|].
    intros action Hact; apply String.eqb_neq in Hact.
    unfold update_game_state_tool, bind, read_global, ret.
    rewrite Hact; reflexivity.
  - rewrite (resolve_round_tool_raise _ _ _ _ _ Hbot Hres) in Hr.
    discriminate Hr.
Qed.

Lemma round_result_then_query_witness :
  let w := initial scenario_tape in
  (exists r : RoundResult, fst (resolve_round_tool "rock" w) = Ok r)
  /\ fst (update_game_state_tool "get_state"
            (snd (resolve_round_tool "rock" w)))
     = Ok (mkStateResult 1 1 0 true true false).
Proof.
  intros w.
  assert (Hr : fst (resolve_round_tool "rock" w)
               = Ok (mkRoundResult "rock" "scissors" "user" 1 0 1 false
                       true true)) by reflexivity.
  split; [eexists; exact Hr|].
  assert (Hact : "get_state" <> "reset") by discriminate.
  rewrite (proj2 (round_result_then_query "rock" w _ Hr) "get_state" Hact).
  reflexivity.
Defined.

(** X15. The two ways of resetting agree: [update_game_state_tool] with 'reset'
    leaves the world [reset_game] leaves, reports the initial figures, and
    after either the match state is the initial one whatever was played
    before; the random source is not rewound.  Any other action, such as
    'RESET' or 'get_state', is a query that leaves the world as it is. *)
Theorem reset_and_query :
  forall (w : World) (action : string),
    snd (update_game_state_tool "reset" w) = snd (reset_game w)
    /\ fst (update_game_state_tool "reset" w)
       = Ok (mkStateResult 0 0 0 true true false)
    /\ snd (reset_game w) = mkWorld GameState_new (rng w) (rng_pos w)
    /\ (action <> "reset" ->
        update_game_state_tool action w = (Ok (snapshot (game_state w)), w)).
Proof.
  intros w action; repeat split.
  intros Hact; apply String.eqb_neq in Hact.
  unfold update_game_state_tool, bind, read_global, ret.
  rewrite Hact; reflexivity.
Qed.

Lemma reset_and_query_witness :
  "RESET" <> "reset"
  /\ update_game_state_tool "RESET"
       (mkWorld (mkGameState 3 2 1 true false true) (fun _ => 0%N) 9)
     = (Ok (mkStateResult 3 2 1 false true true),
        mkWorld (mkGameState 3 2 1 true false true) (fun _ => 0%N) 9).
Proof.
  assert (H : "RESET" <> "reset") by discriminate.
  split; [exact H|].
  exact (proj2 (proj2 (proj2 (reset_and_query
           (mkWorld (mkGameState 3 2 1 true false true) (fun _ => 0%N) 9)
           "RESET"))) H).
Defined.

(** ** Whole sessions *)

Lemma resolved_fields (s : GameState) (um bm : string) (o : Outcome) :
  let s' := resolved s um bm (outcome_str o) in
  round_number s' = round_number s + 1
  /\ user_score s'
     = user_score s + (if String.eqb (outcome_str o) "user" then 1 else 0)
  /\ bot_score s'
     = bot_score s + (if String.eqb (outcome_str o) "bot" then 1 else 0)
  /\ (user_bomb_used s' = true ->
      user_bomb_used s = true \/ um = "bomb")
  /\ (bot_bomb_used s' = true -> bot_bomb_used s = true \/ bm = "bomb")
  /\ (bm = "bomb" -> bot_bomb_used s' = true).
Proof.
  unfold resolved, mark_bomb_used, update_score, is_game_over; cbn zeta.
  destruct s as [rn us bs ub bb go].
  destruct (String.eqb_spec um "bomb"), (String.eqb_spec bm "bomb"), o;
    cbn -[Z.geb Z.add]; destruct (_ >=? 3); cbn -[Z.add];
    repeat split; intros; try lia; try tauto; try congruence.
Qed.

Lemma play_step (m : Move) (rest : list string) (w : World) :
  exists (b : Move) (pos : nat),
    let o := dominance_spec m b in
    let s' := resolved (game_state w) (move_str m) (move_str b)
                (outcome_str o) in
    let w' := mkWorld s' (rng w) pos in
    (bot_bomb_used (game_state w) = true -> b <> bomb)
    /\ after (Resolve m) w = w'
    /\ play (move_str m :: rest) w
       = (round_result (move_str m) (move_str b) (outcome_str o) s'
            :: fst (play rest w'),
          snd (play rest w')).
Proof.
  destruct (resolve_round_tool_canonical m w) as [b [pos [Hb [_ Hrun]]]].
  exists b, pos; cbn zeta; split; [exact Hb|].
  split; [unfold after; rewrite Hrun; reflexivity|].
  cbn [play]; rewrite Hrun.
  destruct (play rest _); reflexivity.
Qed.

(** The counts a run of rounds leaves, from any world. *)
Lemma play_totals (ms : list Move) :
  forall w : World,
    snd (play (map move_str ms) w) = run (map Resolve ms) w
    /\ map r_user_move (fst (play (map move_str ms) w)) = map move_str ms
    /\ round_number (game_state (snd (play (map move_str ms) w)))
       = round_number (game_state w) + Z.of_nat (List.length ms)
    /\ user_score (game_state (snd (play (map move_str ms) w)))
       = user_score (game_state w)
         + count_winner "user" (fst (play (map move_str ms) w))
    /\ bot_score (game_state (snd (play (map move_str ms) w)))
       = bot_score (game_state w)
         + count_winner "bot" (fst (play (map move_str ms) w))
    /\ count_winner "user" (fst (play (map move_str ms) w))
       + count_winner "bot" (fst (play (map move_str ms) w))
       + count_winner "draw" (fst (play (map move_str ms) w))
       = Z.of_nat (List.length ms).
Proof.
  induction ms as [|m ms IH]; intros w.
  - cbn; repeat split; lia.
  - cbn [map].
    destruct (play_step m (map move_str ms) w)
      as [b [pos [_ [Hafter Hplay]]]]; cbn zeta in Hafter, Hplay.
    rewrite Hplay; cbn [fst snd run fold_left]; rewrite Hafter.
    set (w1 := mkWorld _ (rng w) pos) in *.
    destruct (IH w1) as [H1 [H2 [H3 [H4 [H5 H6]]]]].
    fold (run (map Resolve ms) w1).
    destruct (resolved_fields (game_state w) (move_str m) (move_str b)
                (dominance_spec m b)) as [R1 [R2 [R3 _]]].
    subst w1; cbn [game_state] in H3, H4, H5.
    unfold count_winner in *; cbn [filter map r_winner round_result].
    rewrite H1, H2 in *; split; [reflexivity|]; split; [reflexivity|].
    rewrite H3, H4, H5, R1, R2, R3.
    destruct (dominance_spec m b);
      cbn [outcome_str String.eqb Ascii.eqb Bool.eqb List.length];
      cbn -[Z.add Z.of_nat]; cbn [outcome_str] in H6;
      repeat split; lia.
Qed.

(** X16. Rounds played in a row with moves among the four never raise, and the
    state keeps exact count: one result per move, the round number grows by
    the number of rounds, each score by the number of rounds that side won,
    and wins and draws add up to the rounds played.  From the initial state
    [game_over] is set exactly when three or more rounds were played. *)
Theorem play_counts :
  forall (ms : list Move) (w : World),
    let rs := fst (play (map move_str ms) w) in
    let s' := game_state (snd (play (map move_str ms) w)) in
    snd (play (map move_str ms) w) = run (map Resolve ms) w
    /\ map r_user_move rs = map move_str ms
    /\ round_number s'
       = round_number (game_state w) + Z.of_nat (List.length ms)
    /\ user_score s' = user_score (game_state w) + count_winner "user" rs
    /\ bot_score s' = bot_score (game_state w) + count_winner "bot" rs
    /\ count_winner "user" rs + count_winner "bot" rs + count_winner "draw" rs
       = Z.of_nat (List.length ms)
    /\ (game_state w = GameState_new ->
        (game_over s' = true <-> (3 <= List.length ms)%nat)).
Proof.
  intros ms w; cbn zeta.
  destruct (play_totals ms w) as [H1 [H2 [H3 [H4 [H5 H6]]]]].
  repeat (split; [assumption|]).
  intros Hnew.
  pose proof (match_invariant_run (map Resolve ms) w) as Hinv.
  rewrite <- H1 in Hinv.
  destruct Hinv as [_ Hover];
    [rewrite Hnew; apply match_invariant_new|].
  rewrite Hover, H3, Hnew; unfold GameState_new; cbn [round_number]; lia.
Qed.

Lemma play_counts_witness :
  let ms := [rock; bomb; paper] in
  let w := initial scenario_tape in
  game_state w = GameState_new
  /\ (3 <= List.length ms)%nat
  /\ game_over (game_state (snd (play (map move_str ms) w))) = true.
Proof.
  intros ms w.
  assert (Hnew : game_state w = GameState_new) by reflexivity.
  assert (Hlen : (3 <= List.length ms)%nat) by (cbn; lia).
  split; [exact Hnew|]; split; [exact Hlen|].
  destruct (play_counts ms w) as [_ [_ [_ [_ [_ [_ Hover]]]]]].
  exact (proj2 (Hover Hnew) Hlen).
Defined.

(** X17. The bot never plays a second bomb: among the rounds played in a row,
    from any state, at most one has the bot playing 'bomb', and none has if
    the bot's bomb flag was already true. *)
Theorem bot_bombs_at_most_once :
  forall (ms : list Move) (w : World),
    (count_bot_bombs (fst (play (map move_str ms) w)) <= 1)%nat
    /\ (bot_bomb_used (game_state w) = true ->
        count_bot_bombs (fst (play (map move_str ms) w)) = 0%nat).
Proof.
  assert (Hzero : forall (ms : list Move) (w : World),
             bot_bomb_used (game_state w) = true ->
             count_bot_bombs (fst (play (map move_str ms) w)) = 0%nat).
  { induction ms as [|m ms IH]; intros w Hused; [reflexivity|].
    cbn [map].
    destruct (play_step m (map move_str ms) w)
      as [b [pos [Hb [_ Hplay]]]]; cbn zeta in Hplay.
    rewrite Hplay; cbn [fst].
    unfold count_bot_bombs; cbn [filter r_bot_move round_result].
    specialize (Hb Hused).
    replace (String.eqb (move_str b) "bomb") with false
      by (destruct b; try reflexivity; congruence).
    apply IH; cbn [game_state].
    now apply resolved_keeps_flags. }
  intros ms w; split; [|apply Hzero].
  revert w; induction ms as [|m ms IH]; intros w; [cbn; lia|].
  cbn [map].
  destruct (play_step m (map move_str ms) w)
    as [b [pos [_ [_ Hplay]]]]; cbn zeta in Hplay.
  rewrite Hplay; cbn [fst].
  unfold count_bot_bombs; cbn [filter r_bot_move round_result].
  destruct (String.eqb_spec (move_str b) "bomb") as [Hb|Hb].
  - cbn [List.length].
    fold (count_bot_bombs (fst (play (map move_str ms)
            (mkWorld (resolved (game_state w) (move_str m) (move_str b)
                        (outcome_str (dominance_spec m b))) (rng w) pos)))).
    rewrite Hzero; [lia|].
    cbn [game_state].
    now apply (resolved_fields (game_state w) (move_str m) (move_str b)
                 (dominance_spec m b)).
  - apply IH.
Qed.

Lemma bot_bombs_at_most_once_witness :
  let w := mkWorld (mkGameState 1 0 1 false true false) scenario_tape 0 in
  bot_bomb_used (game_state w) = true
  /\ count_bot_bombs (fst (play (map move_str [rock; paper; bomb]) w)) = 0%nat.
Proof.
  intros w.
  assert (H : bot_bomb_used (game_state w) = true) by reflexivity.
  split; [exact H|].
  exact (proj2 (bot_bombs_at_most_once [rock; paper; bomb] w) H).
Defined.

Lemma session_bound_after (tape : nat -> N) (n : Z) (c : Call) (w : World) :
  session_bound tape n w -> session_bound tape (n + 1) (after c w).
Proof.
  unfold session_bound; cbn zeta.
  intros [Hu [Hb [Hsum [Hrn [Hfu [Hfb Htape]]]]]].
  assert (Hnew : session_bound tape (n + 1)
                   (mkWorld GameState_new (rng w) (rng_pos w))).
  { unfold session_bound; cbn; repeat split; try lia; try discriminate.
    exact Htape. }
  destruct c as [m | a |].
  - destruct (play_step m [] w) as [b [pos [_ [-> _]]]]; cbn [game_state rng].
    destruct (resolved_fields (game_state w) (move_str m) (move_str b)
                (dominance_spec m b)) as [R1 [R2 [R3 [R4 [R5 _]]]]].
    rewrite R1, R2, R3.
    destruct (dominance_spec m b); cbn [outcome_str];
      repeat match goal with
             | |- context [String.eqb ?x ?y] =>
                 let v := eval vm_compute in (String.eqb x y) in
                 change (String.eqb x y) with v
             end;
      cbn iota; repeat split; intros; try lia; exact Htape.
  - unfold after, update_game_state_tool, bind, assign_global, read_global,
      ret.
    destruct (String.eqb a "reset"); cbn [snd]; [exact Hnew|].
    unfold session_bound; cbn zeta; repeat split; try lia; tauto.
  - exact Hnew.
Qed.

(** X18. In every state reached from the initial one by round resolutions with
    canonical moves and by resets, the scores are not negative and neither
    exceeds the round number, the round number is at most the number of
    calls made, a bomb flag is true only after at least one round, and the
    tape of draws is the one the session started with. *)
Theorem session_bounds :
  forall (tape : nat -> N) (cs : list Call),
    let w := run cs (initial tape) in
    let s := game_state w in
    0 <= user_score s <= round_number s
    /\ 0 <= bot_score s <= round_number s
    /\ round_number s <= Z.of_nat (List.length cs)
    /\ (user_bomb_used s = true -> 1 <= round_number s)
    /\ (bot_bomb_used s = true -> 1 <= round_number s)
    /\ rng w = tape.
Proof.
  intros tape cs.
  assert (Hrun : forall (cs : list Call) (n : Z) (w : World),
             session_bound tape n w ->
             session_bound tape (n + Z.of_nat (List.length cs)) (run cs w)).
  { induction cs0 as [|c cs0 IH]; intros n w Hw.
    - cbn; now rewrite Z.add_0_r.
    - cbn [run fold_left List.length].
      replace (n + Z.of_nat (S (List.length cs0)))
        with (n + 1 + Z.of_nat (List.length cs0)) by lia.
      apply IH, session_bound_after, Hw. }
  assert (H0 : session_bound tape 0 (initial tape)).
  { unfold session_bound; cbn; repeat split; try lia; discriminate. }
  specialize (Hrun cs 0 (initial tape) H0).
  unfold session_bound in Hrun; cbn zeta in *.
  destruct Hrun as [Hu [Hb [Hsum [Hrn [Hfu [Hfb Htape]]]]]].
  repeat split; try lia; assumption.
Qed.

Lemma session_bounds_witness :
  let w := run [Resolve bomb; Resolve rock] (initial scenario_tape) in
  user_bomb_used (game_state w) = true
  /\ 1 <= round_number (game_state w).
Proof.
  intros w.
  assert (H : user_bomb_used (game_state w) = true) by reflexivity.
  split; [exact H|].
  exact (proj1 (proj2 (proj2 (proj2
           (session_bounds scenario_tape [Resolve bomb; Resolve rock])))) H).
Defined.

(** ** Validation is stable *)

Lemma rstrip_cons (c : ascii) (t : string) :
  rstrip (String c t)
  = match rstrip t with
    | EmptyString => if isspace c then EmptyString else String c EmptyString
    | t' => String c t'
    end.
Proof. reflexivity. Qed.

Lemma rstrip_idem (s : string) : rstrip (rstrip s) = rstrip s.
Proof.
  induction s as [|c t IH]; [reflexivity|].
  rewrite rstrip_cons.
  destruct (rstrip t) as [|c' t'] eqn:E.
  - destruct (isspace c) eqn:Hc; [reflexivity|].
    rewrite rstrip_cons; cbn [rstrip]; rewrite Hc; reflexivity.
  - rewrite rstrip_cons, IH; reflexivity.
Qed.

Lemma lstrip_head (s : string) :
  lstrip s = EmptyString
  \/ exists (c : ascii) (t : string),
       lstrip s = String c t /\ isspace c = false.
Proof.
  induction s as [|c t IH]; [left; reflexivity|].
  cbn [lstrip]; destruct (isspace c) eqn:Hc; [exact IH|].
  right; exists c, t; split; [reflexivity | exact Hc].
Qed.

Lemma strip_idem (s : string) : strip (strip s) = strip s.
Proof.
  unfold strip.
  destruct (lstrip_head s) as [->|[c [t [-> Hc]]]]; [reflexivity|].
  assert (Hhead : exists t' : string, rstrip (String c t) = String c t').
  { rewrite rstrip_cons; destruct (rstrip t);
      [rewrite Hc|]; eexists; reflexivity. }
  destruct Hhead as [t' Ht'].
  rewrite Ht'; cbn [lstrip]; rewrite Hc, <- Ht'.
  apply rstrip_idem.
Qed.

(** X19. The move [validate_move] returns is already in the form it looks for:
    validating the returned move, in the same state, gives the very same
    result, for accepted and for rejected input alike. *)
Theorem validate_move_idempotent :
  forall (raw : string) (w : World),
    exists r : ValidateResult,
      validate_move raw w = (Ok r, w)
      /\ move r = lower (strip raw)
      /\ validate_move (move r) w = (Ok r, w).
Proof.
  intros raw w.
  assert (Hfix : lower (strip (lower (strip raw))) = lower (strip raw)).
  { now rewrite <- lower_strip, lower_idem, strip_idem. }
  pose proof (validate_move_cases raw w) as H1.
  pose proof (validate_move_cases (lower (strip raw)) w) as H2.
  cbn zeta in H1, H2; rewrite Hfix in H2.
  eexists; split; [exact H1|].
  assert (Hmove : forall r : ValidateResult,
             r = (if negb (mem (lower (strip raw)) MOVE_NAMES) then
                    mkValidateResult false (lower (strip raw))
                      ("Invalid move '" ++ lower (strip raw)
                         ++ "'. Valid moves: rock, paper, scissors, bomb")
                  else if (String.eqb (lower (strip raw)) "bomb"
                           && user_bomb_used (game_state w))%bool then
                    mkValidateResult false (lower (strip raw))
                      "You have already used your bomb!"
                  else mkValidateResult true (lower (strip raw)) "Valid move")
             -> move r = lower (strip raw)).
  { intros r ->.
    destruct (negb _); [reflexivity|]; destruct (_ && _)%bool; reflexivity. }
  rewrite (Hmove _ eq_refl); split; [reflexivity | exact H2].
Qed.

(** ** The state [main.py] looks at *)

Section StaleName.

Import main_py.

Lemma store_length (a : nat) (s : GameState) (h : list GameState) :
  List.length (store a s h) = List.length h.
Proof.
  revert a; induction h as [|x t IH]; intros [|a]; cbn; congruence.
Qed.

Lemma store_other (a b : nat) (s d : GameState) (h : list GameState) :
  a <> b -> nth b (store a s h) d = nth b h d.
Proof.
  revert a b; induction h as [|x t IH]; intros [|a] [|b] Hab; cbn;
    try reflexivity; try congruence.
  apply IH; congruence.
Qed.

Lemma store_same (a : nat) (s d : GameState) (h : list GameState) :
  (a < List.length h)%nat -> nth a (store a s h) d = s.
Proof.
  revert a; induction h as [|x t IH]; intros [|a] Ha; cbn in *;
    try lia; [reflexivity|].
  apply IH; lia.
Qed.

Lemma names_apart_on_global {A : Type} (m : M A) (p : Process) :
  names_apart p -> names_apart (snd (on_global m p)).
Proof.
  unfold names_apart, on_global, deref; cbn [snd heap tools_game_state
    main_game_state].
  intros [Hlt [Hlen Hmain]]; rewrite store_length.
  repeat split; try assumption.
  rewrite store_other; [exact Hmain | lia].
Qed.

Lemma names_apart_rebind (p : Process) :
  (main_game_state p < List.length (heap p))%nat ->
  deref p (main_game_state p) = GameState_new ->
  names_apart (rebind_fresh p).
Proof.
  unfold names_apart, rebind_fresh, deref; cbn [heap tools_game_state
    main_game_state].
  intros Hlt Hmain; rewrite length_app; cbn [List.length].
  repeat split; try lia.
  rewrite app_nth1; assumption.
Qed.

Lemma names_apart_tool_call (c : ToolCall) (p : Process) :
  names_apart p -> names_apart (tool_call c p).
Proof.
  intros Hp.
  assert (Hfresh : names_apart (rebind_fresh p)).
  { destruct Hp as [Hlt [Hlen Hmain]]; apply names_apart_rebind;
      [lia | exact Hmain]. }
  destruct c as [raw | um | action |]; cbn [tool_call];
    try (apply names_apart_on_global; exact Hp); [|exact Hfresh].
  destruct (String.eqb action "reset"); apply names_apart_on_global;
    assumption.
Qed.

(** On the object the global names, a tool function does what it does in
    the world of the tools. *)
Lemma world_of_on_global {A : Type} (m : M A) (p : Process) :
  (tools_game_state p < List.length (heap p))%nat ->
  world_of (snd (on_global m p)) = snd (m (world_of p)).
Proof.
  intros Hlen; unfold world_of, on_global, deref;
    cbn [snd heap tools_game_state draws draws_pos].
  rewrite store_same by exact Hlen.
  destruct (snd (m _)); reflexivity.
Qed.

Lemma world_of_resolves (ms : list Move) :
  forall p : Process,
    names_apart p ->
    world_of (tool_calls (map (fun m => CallResolve (move_str m)) ms) p)
    = run (map Resolve ms) (world_of p).
Proof.
  induction ms as [|m ms IH]; intros p Hp; [reflexivity|].
  cbn [map tool_calls run fold_left].
  fold (tool_calls (map (fun m => CallResolve (move_str m)) ms)
          (tool_call (CallResolve (move_str m)) p)).
  fold (run (map Resolve ms) (after (Resolve m) (world_of p))).
  rewrite IH by (apply names_apart_tool_call, Hp).
  cbn [tool_call after]; rewrite world_of_on_global by apply Hp.
  reflexivity.
Qed.

End StaleName.

Lemma round_number_run (ms : list Move) :
  forall w : World,
    round_number (game_state (run (map Resolve ms) w))
    = round_number (game_state w) + Z.of_nat (List.length ms).
Proof.
  induction ms as [|m ms IH]; intros w; [cbn; lia|].
  cbn [map run fold_left List.length].
  fold (run (map Resolve ms) (after (Resolve m) w)).
  rewrite IH.
  destruct (after_resolve m w) as [b ->].
  rewrite (proj1 (resolved_fields (game_state w) (move_str m) (move_str b)
                    (dominance_spec m b))).
  lia.
Qed.

Example tools_finish_main_does_not :
  let p := main_py.tool_calls
             [main_py.CallResolve "rock"; main_py.CallResolve "bomb";
              main_py.CallResolve "paper"]
             (main_py.main_start scenario_tape) in
  (main_py.tools_see_game_over p, main_py.main_sees_game_over p)
  = (true, false).
Proof. reflexivity. Qed.

(** X20. After the [reset_game()] that [main] starts with, the name [game_state]
    that [main.py] imported and the global of [game_tools] name different
    objects: whatever tool calls follow, with whatever arguments, the object
    [main] holds is still the initial state, so the [game_state.game_over]
    that [main] tests stays false, also when the state the tools keep has
    [game_over] true, as it has after three rounds resolved with moves among
    the four. *)
Theorem main_game_state_is_stale :
  forall (tape : nat -> N) (cs : list main_py.ToolCall),
    let p := main_py.tool_calls cs (main_py.main_start tape) in
    main_py.deref p (main_py.main_game_state p) = GameState_new
    /\ main_py.main_sees_game_over p = false
    /\ main_py.main_game_state p <> main_py.tools_game_state p
    /\ forall (m1 m2 m3 : Move),
         main_py.tools_see_game_over
           (main_py.tool_calls
              [main_py.CallResolve (move_str m1);
               main_py.CallResolve (move_str m2);
               main_py.CallResolve (move_str m3)]
              (main_py.main_start tape)) = true.
Proof.
  intros tape cs p.
  assert (Hrun : forall (cs0 : list main_py.ToolCall) (q : main_py.Process),
             main_py.names_apart q ->
             main_py.names_apart (main_py.tool_calls cs0 q)).
  { induction cs0 as [|c cs0 IH]; intros q Hq; [exact Hq|].
    cbn [main_py.tool_calls fold_left].
    apply IH, names_apart_tool_call, Hq. }
  assert (H0 : main_py.names_apart (main_py.main_start tape)).
  { unfold main_py.names_apart; cbn; repeat split; lia. }
  destruct (Hrun cs _ H0) as [Hlt [Hlen Hmain]]; fold p in Hlt, Hlen, Hmain.
  split; [exact Hmain|].
  split; [unfold main_py.main_sees_game_over; rewrite Hmain; reflexivity|].
  split; [lia|].
  intros m1 m2 m3.
  pose proof (world_of_resolves [m1; m2; m3] _ H0) as Hworld.
  cbn [map] in Hworld.
  change (main_py.tools_see_game_over ?q)
    with (game_over (game_state (main_py.world_of q))).
  rewrite Hworld.
  pose proof (match_invariant_run (map Resolve [m1; m2; m3])
                (main_py.world_of (main_py.main_start tape))
                match_invariant_new) as [_ Hover].
  apply Hover; cbn [map] in *.
  pose proof (round_number_run [m1; m2; m3]
                (main_py.world_of (main_py.main_start tape))) as Hround.
  cbn [map] in Hround; rewrite Hround; cbn; lia.
Qed.

(** ** The end of a match *)

(** X21. A call of [resolve_round_tool] that returns has counted one more round,
    and the [game_over] it reports and leaves is the flag it found or-ed
    with "three rounds reached": the call sets the flag and never clears
    it. *)
Theorem resolve_round_tool_game_over :
  forall (user_move : string) (w : World) (r : RoundResult),
    fst (resolve_round_tool user_move w) = Ok r ->
    let s := game_state w in
    let s' := game_state (snd (resolve_round_tool user_move w)) in
    r_round r = round_number s + 1
    /\ round_number s' = round_number s + 1
    /\ r_game_over r = (game_over s || (round_number s + 1 >=? 3))%bool
    /\ game_over s' = r_game_over r.
Proof.
  intros um w r Hr; cbn zeta.
  destruct (get_bot_move_returns w) as [b [pos [Hbot _]]].
  destruct (resolve_round um (move_str b)) as [winner|e] eqn:Hres.
  - rewrite (resolve_round_tool_run _ _ _ _ _ Hbot Hres) in Hr |- *.
    cbn [fst snd game_state] in Hr |- *.
    assert (Hx : round_result um (move_str b) winner
                   (resolved (game_state w) um (move_str b) winner) = r)
      by congruence.
    subst r; cbn [r_round r_game_over round_result].
    unfold resolved, mark_bomb_used, update_score, is_game_over; cbn zeta.
    destruct (game_state w) as [rn us bs ub bb go].
    destruct (String.eqb um "bomb"), (String.eqb (move_str b) "bomb"),
      (String.eqb winner "user"), (String.eqb winner "bot");
      cbn -[Z.geb Z.add]; destruct (_ >=? 3), go; repeat split; reflexivity.
  - rewrite (resolve_round_tool_raise _ _ _ _ _ Hbot Hres) in Hr.
    discriminate Hr.
Qed.

Lemma resolve_round_tool_game_over_witness :
  let w := mkWorld (mkGameState 0 0 0 false false true) scenario_tape 0 in
  (exists r : RoundResult, fst (resolve_round_tool "rock" w) = Ok r)
  /\ game_over (game_state (snd (resolve_round_tool "rock" w))) = true.
Proof.
  intros w.
  assert (Hr : fst (resolve_round_tool "rock" w)
               = Ok (mkRoundResult "rock" "scissors" "user" 1 0 1 true
                       true true)) by reflexivity.
  split; [eexists; exact Hr|].
  destruct (resolve_round_tool_game_over "rock" w _ Hr) as [_ [_ [Hg Hs]]].
  rewrite Hs, Hg; reflexivity.
Defined.

(** X22. After rounds played in a row from the initial state,
    [get_final_result] names the side that won more of the rounds, and
    'Draw' when both won as many. *)
Theorem final_result_counts_rounds :
  forall (ms : list Move) (tape : nat -> N),
    let rs := fst (play (map move_str ms) (initial tape)) in
    let s' := game_state (snd (play (map move_str ms) (initial tape))) in
    get_final_result s'
    = if count_winner "user" rs >? count_winner "bot" rs then "User wins"
      else if count_winner "bot" rs >? count_winner "user" rs then "Bot wins"
      else "Draw".
Proof.
  intros ms tape; cbn zeta.
  destruct (play_totals ms (initial tape)) as [_ [_ [_ [H4 [H5 _]]]]].
  unfold get_final_result; rewrite H4, H5; cbn [initial game_state].
  unfold GameState_new; cbn [user_score bot_score].
  rewrite !Z.add_0_l; reflexivity.
Qed.
